(** * PDF question extractor: the extraction stage, embedded and verified

    Shallow embedding of [pdf_question_extractor/extract_pdf_content.py]
    (class [PDFExtractor]) together with the Python built-ins it leans on
    ([str.strip], [str.split], [str.join] and the [re] functions it calls
    on its fixed patterns), followed by the properties of the extraction
    stage.  The loop of [generate_image_captions.py] over the image
    directory is embedded as well.  Definitions carry the names of the
    source. *)

From Stdlib Require Import NArith Ascii String List Lia DecimalString DecimalNat.
From stdpp Require Import base option list sorting strings gmap.

Local Open Scope N_scope.

(** ** Python text

    A Python [str] is a sequence of Unicode code points; a code point is a
    number.  [py] reads an ASCII literal. *)

Abbreviation char := N (only parsing).
Abbreviation str := (list N) (only parsing).
Abbreviation bytes := (list Byte.byte) (only parsing).

Definition ch (a : ascii) : char := N_of_ascii a.
Arguments ch a%_char.

Definition py (s : string) : str := map N_of_ascii (list_ascii_of_string s).

(** [str(n)] for a non-negative [int]. *)
Definition str_of_nat (n : nat) : str :=
  py (NilZero.string_of_uint (Nat.to_uint n)).

Definition in_range (lo hi c : char) : bool := (lo <=? c) && (c <=? hi).

(** The characters [str.isspace], [str.split], [str.strip] and the pattern
    class [\s] treat as whitespace (CPython's [_PyUnicode_IsWhitespace]):
    U+0009..000D, U+001C..0020, U+0085, U+00A0, U+1680, U+2000..200A,
    U+2028, U+2029, U+202F, U+205F, U+3000. *)
Definition isspace (c : char) : bool :=
  in_range 9 13 c || in_range 28 32 c || (c =? 133) || (c =? 160)
  || (c =? 5760) || in_range 8192 8202 c || (c =? 8232) || (c =? 8233)
  || (c =? 8239) || (c =? 8287) || (c =? 12288).

(** The longest prefix whose characters satisfy [p], and what follows it. *)
Fixpoint run (p : char → bool) (s : str) : str :=
  match s with
  | c :: s' => if p c then c :: run p s' else []
  | [] => []
  end.

Fixpoint many (p : char → bool) (s : str) : str :=
  match s with
  | c :: s' => if p c then many p s' else s
  | [] => []
  end.

Definition lstrip (s : str) : str := many isspace s.
Definition rstrip (s : str) : str := rev (many isspace (rev s)).
(** [s.strip()] *)
Definition strip (s : str) : str := rstrip (lstrip s).

(** [s.split()]: the maximal whitespace-free stretches of [s], in order.
    [cur] is the stretch being read. *)
Fixpoint split_go (cur : str) (s : str) : list str :=
  match s with
  | [] => match cur with [] => [] | _ => [cur] end
  | c :: s' =>
      if isspace c
      then match cur with [] => split_go [] s' | _ => cur :: split_go [] s' end
      else split_go (cur ++ [c]) s'
  end.

Definition split (s : str) : list str := split_go [] s.

(** [sep.join(l)] *)
Fixpoint join (sep : str) (l : list str) : str :=
  match l with
  | [] => []
  | [x] => x
  | x :: l' => x ++ sep ++ join sep l'
  end.

(** [s.startswith(l)]: what follows [l] at the start of [s], if [l] is
    there.  It is also how a pattern matches a literal. *)
Fixpoint literal (l : str) (s : str) : option str :=
  match l, s with
  | [], _ => Some s
  | a :: l', c :: s' => if a =? c then literal l' s' else None
  | _ :: _, [] => None
  end.

Definition startswith (s l : str) : bool := bool_decide (is_Some (literal l s)).

(** [l in s] *)
Fixpoint contains (l : str) (s : str) : bool :=
  match literal l s with
  | Some _ => true
  | None => match s with [] => false | _ :: s' => contains l s' end
  end.

(** ** What the interpreter supplies

    [\d], [int], [str.upper] and [str.lower] read the Unicode character
    database of the running interpreter; Pillow decodes image bytes and
    [hashlib] digests them.  The development is parametric in them. *)

Class UnicodeData := {
  (** [\d]: the decimal digits (category Nd) *)
  isdecimal : char → bool;
  (** the value [int] gives a decimal digit *)
  decimal_value : char → nat;
  (** [str.upper] and [str.lower] *)
  upper : str → str;
  lower : str → str
}.

Class Imaging := {
  (** [Image.open(BytesIO(data)).convert("RGB").tobytes()]; [None] when
      Pillow raises on the data *)
  rgb_pixels : bytes → option bytes;
  (** [hashlib.md5(data).hexdigest()], the 32 hexadecimal digits read as
      the 128-bit number they spell; the string is never empty, so as a
      condition it is true *)
  md5_hexdigest : bytes → N
}.

(** ** The [re] module, for the patterns of the program

    A pattern is embedded as its matcher at the start of a text: it gives
    the captured groups and the text after the match.  All patterns below
    are matched greedily with no backtracking; that is exact for each of
    them because every optional or repeated item excludes the characters
    that the next item of the pattern accepts, so giving back what such an
    item took can never turn a failure into a match. *)

Definition pattern (G : Type) := str → option (G * str).

(** one character of a class *)
Definition one (p : char → bool) (s : str) : option str :=
  match s with
  | c :: s' => if p c then Some s' else None
  | [] => None
  end.

(** [x?] *)
Definition maybe (p : char → bool) (s : str) : str :=
  match s with
  | c :: s' => if p c then s' else s
  | [] => []
  end.

Definition ascii_lower (c : char) : char := if in_range 65 90 c then c + 32 else c.
Definition ascii_upper (c : char) : char := if in_range 97 122 c then c - 32 else c.

(** Under [re.IGNORECASE] a letter of a pattern also matches the
    characters outside ASCII that share its case folding: U+017F with s,
    U+0130 and U+0131 with i, U+212A with k. *)
Definition ignorecase_extra (l : char) : list char :=
  if l =? ch "s" then [383]
  else if l =? ch "i" then [304; 305]
  else if l =? ch "k" then [8490]
  else [].

(** an ASCII character [l] of a pattern against [c], under [re.IGNORECASE] *)
Definition ieq (l c : char) : bool :=
  (ascii_lower c =? ascii_lower l) || existsb (N.eqb c) (ignorecase_extra (ascii_lower l)).

Fixpoint iliteral (l : str) (s : str) : option str :=
  match l, s with
  | [], _ => Some s
  | a :: l', c :: s' => if ieq a c then iliteral l' s' else None
  | _ :: _, [] => None
  end.

(** [re.match(p, s)] *)
Definition re_match {G} (p : pattern G) (s : str) : option G := fst <$> p s.

(** [re.search(p, s)]: the groups of the leftmost match *)
Fixpoint re_search {G} (p : pattern G) (s : str) : option G :=
  match p s with
  | Some (g, _) => Some g
  | None => match s with [] => None | _ :: s' => re_search p s' end
  end.

(** the length of the match at the start of [s] *)
Definition match_length {G} (p : pattern G) (s : str) : option nat :=
  (λ m, length s - length m.2)%nat <$> p s.

(** [re.sub(p, '', s)] for a pattern that matches no empty string: scan
    left to right, drop each match and resume after it.  [skip] counts the
    characters of the current match still to drop. *)
Fixpoint re_sub_go {G} (p : pattern G) (skip : nat) (s : str) : str :=
  match s with
  | [] => []
  | c :: s' =>
      match skip with
      | S k => re_sub_go p k s'
      | O =>
          match match_length p s with
          | Some (S k) => re_sub_go p k s'
          | _ => c :: re_sub_go p 0 s'
          end
      end
  end.

Definition re_sub_empty {G} (p : pattern G) (s : str) : str := re_sub_go p 0 s.

(** [re.split(p, s)] for a pattern that is one capturing group and matches
    no empty string: the stretches between matches, each match in between. *)
Fixpoint re_split_go {G} (p : pattern G) (skip : nat) (cur : str) (s : str) : list str :=
  match s with
  | [] => [cur]
  | c :: s' =>
      match skip with
      | S k => re_split_go p k cur s'
      | O =>
          match match_length p s with
          | Some (S k) => cur :: take (S k) s :: re_split_go p k [] s'
          | _ => re_split_go p 0 (cur ++ [c]) s'
          end
      end
  end.

Definition re_split {G} (p : pattern G) (s : str) : list str := re_split_go p 0 [] s.

(** ** The patterns of the program *)

Definition is_char (a : char) (c : char) : bool := c =? a.

(** [[A-D]], and the same class under [re.IGNORECASE] *)
Definition in_A_D (c : char) : bool := in_range 65 68 c.
Definition in_A_D_ignorecase (c : char) : bool := in_range 65 68 c || in_range 97 100 c.

(** [Ans\.?\s*\[?[A-D]\]?] with [re.IGNORECASE] *)
Definition ans_artifact : pattern unit := λ s,
  s ← iliteral (py "Ans") s;
  let s := maybe (is_char (ch ".")) s in
  let s := many isspace s in
  let s := maybe (is_char (ch "[")) s in
  s ← one in_A_D_ignorecase s;
  Some ((), maybe (is_char (ch "]")) s).

(** [\[[A-D]\][^\[\]]*], the group that [_extract_options] splits at *)
Definition not_bracket (c : char) : bool := negb (is_char (ch "[") c || is_char (ch "]") c).

Definition option_part : pattern unit := λ s,
  s ← one (is_char (ch "[")) s;
  s ← one in_A_D s;
  s ← one (is_char (ch "]")) s;
  Some ((), many not_bracket s).

(** [\[([A-D])\]] followed by the group [.*]: the label and the rest of
    the line (a dot is every character but the line feed) *)
Definition not_newline (c : char) : bool := negb (is_char 10 c).

Definition option_entry : pattern (str * str) := λ s,
  s ← one (is_char (ch "[")) s;
  match s with
  | l :: s =>
      if in_A_D l then
        s ← one (is_char (ch "]")) s;
        Some (([l], run not_newline s), many not_newline s)
      else None
  | [] => None
  end.

Section Patterns.
Context {unicode : UnicodeData}.

(** [\d+]: the digits and what follows them *)
Definition digits (s : str) : option (str * str) :=
  match run isdecimal s with
  | [] => None
  | ds => Some (ds, many isdecimal s)
  end.

(** [int(ds)] for a string of decimal digits *)
Definition int (ds : str) : nat :=
  fold_left (λ n d, 10 * n + decimal_value d)%nat ds 0%nat.

(** [---page(\d+)---]; [---page\d+---] is the same pattern without the
    group *)
Definition page_tag : pattern str := λ s,
  s ← literal (py "---page") s;
  '(ds, s) ← digits s;
  s ← literal (py "---") s;
  Some (ds, s).

(** [^\d+\.\s] *)
Definition question_start : pattern unit := λ s,
  '(_, s) ← digits s;
  s ← one (is_char (ch ".")) s;
  s ← one isspace s;
  Some ((), s).

(** [^(\d+)\.] *)
Definition question_num : pattern str := λ s,
  '(ds, s) ← digits s;
  s ← one (is_char (ch ".")) s;
  Some (ds, s).

(** The four patterns of [_is_question_with_image], all searched with
    [re.IGNORECASE]. *)

(** [\d+\s*[=≠<>]\s*\d+] (U+2260 is the not-equal sign) *)
Definition is_comparison (c : char) : bool :=
  is_char (ch "=") c || is_char 8800 c || is_char (ch "<") c || is_char (ch ">") c.

Definition comparison : pattern unit := λ s,
  '(_, s) ← digits s;
  s ← one is_comparison (many isspace s);
  '(_, s) ← digits (many isspace s);
  Some ((), s).

(** [_\s*_\s*_] *)
Definition blanks : pattern unit := λ s,
  s ← one (is_char (ch "_")) s;
  s ← one (is_char (ch "_")) (many isspace s);
  s ← one (is_char (ch "_")) (many isspace s);
  Some ((), s).

(** [see (figure|image|diagram)] *)
Definition see_figure : pattern unit := λ s,
  s ← iliteral (py "see ") s;
  match iliteral (py "figure") s with
  | Some s => Some ((), s)
  | None =>
      match iliteral (py "image") s with
      | Some s => Some ((), s)
      | None => s ← iliteral (py "diagram") s; Some ((), s)
      end
  end.

(** [below\s*:?$]; [$] holds at the end of the text and before a line
    feed that ends it *)
Definition at_end (s : str) : bool :=
  match s with
  | [] => true
  | [c] => is_char 10 c
  | _ => false
  end.

Definition below : pattern unit := λ s,
  s ← iliteral (py "below") s;
  let s := maybe (is_char (ch ":")) (many isspace s) in
  if at_end s then Some ((), s) else None.

(** ** [PDFExtractor]: the text methods *)

Definition _clean_question_text (text : str) : str :=
  let text := re_sub_empty ans_artifact text in
  let text := re_sub_empty page_tag text in
  strip (join (py " ") (split text)).

Definition _is_question_with_image (text : str) : bool :=
  bool_decide (is_Some (re_search comparison text))
  || bool_decide (is_Some (re_search blanks text))
  || bool_decide (is_Some (re_search see_figure text))
  || bool_decide (is_Some (re_search below text)).
End Patterns.

(** An entry of a question's ["options"]: the dict with keys ["label"] and
    ["text"]. *)
Record OptionRecord := { label : str; text : str }.

(** the body of the loop over [option_parts]: the entry it appends, if any *)
Definition option_of_part (part : str) : option OptionRecord :=
  match strip part with
  | [] => None
  | stripped =>
      '(label, text) ← re_match option_entry stripped;
      match strip text with
      | [] => None
      | text => Some {| label := label; text := text |}
      end
  end.

Definition _extract_options (question_text : str) : list OptionRecord :=
  let option_parts := re_split option_part question_text in
  omap option_of_part option_parts.

(** ** Exceptions

    A call either returns or raises; a raised exception leaves every
    enclosing call, as nothing in the extractor catches it. *)

Inductive result (A : Type) : Type :=
  | Ok (a : A)
  | Raise.
Arguments Ok {A} a.
Arguments Raise {A}.

#[export] Instance result_ret : MRet result := λ A, Ok.
#[export] Instance result_bind : MBind result := λ A B f m,
  match m with
  | Ok a => f a
  | Raise => Raise
  end.

(** [for x in l: s = body(s, x)] *)
Fixpoint for_each {A S} (body : S → A → result S) (l : list A) (s : S) : result S :=
  match l with
  | [] => Ok s
  | x :: l' => s' ← body s x; for_each body l' s'
  end.

(** [enumerate(l, start)] *)
Fixpoint enumerate {A} (start : nat) (l : list A) : list (nat * A) :=
  match l with
  | [] => []
  | x :: l' => (start, x) :: enumerate (S start) l'
  end.

(** ** The document and the files, as the extractor sees them *)

(** [doc.extract_image(xref)]: its ["image"] and ["ext"] entries *)
Record BaseImage := { image_bytes : bytes; ext : str }.

(** A page: [page.get_text()] and, for each entry of
    [page.get_images(full=True)], its item 0 (the xref). *)
Record Page := { get_text : str; get_images : list N }.

Record Document := { pages : list Page; extract_image : N → BaseImage }.

(** The files: the content of [VEDANTU_LOGO_PATH] ([None] when the path
    does not exist), and whether [open(path, "wb")] followed by the write
    succeeds. *)
Record Files := { vedantu_logo : option bytes; writable : str → bool }.

Definition VALID_IMAGE_EXTS : list str := [py "png"; py "jpg"; py "jpeg"; py "jpe"].
(** [os.path.join(OUTPUT_DIR, "images")], with the POSIX separator *)
Definition IMAGE_DIR : str := py "output/images".

(** An entry of [all_images]: the dict with keys ["page"] and ["image"]. *)
Record HarvestedImage := { page : nat; image : str }.

(** The values a question record holds: [None], a text, a list of image
    paths, a list of options. *)
Inductive value :=
  | VNone
  | VStr (s : str)
  | VImages (l : list str)
  | VOptions (l : list OptionRecord).

(** The variables of one iteration of the loop over [raw_questions] when
    it reaches [questions_data.append]. *)
Record Iteration := {
  clean_text : str;
  current_page : option nat;
  question_images : list str;
  option_images : list str;
  image_index : nat;
  question_obj : gmap string value
}.

Record PDFExtractor := { vedantu_logo_hash : option N }.

Section Extractor.
Context {unicode : UnicodeData} {imaging : Imaging}.

Definition _get_image_hash (image_data : bytes) : result N :=
  match rgb_pixels image_data with
  | Some img => Ok (md5_hexdigest img)
  | None => Raise
  end.

Definition _load_vedantu_logo (fs : Files) (self : PDFExtractor) : result PDFExtractor :=
  match vedantu_logo fs with
  | Some logo_bytes =>
      h ← _get_image_hash logo_bytes;
      Ok {| vedantu_logo_hash := Some h |}
  | None => Ok self
  end.

Definition __init__ (fs : Files) : result PDFExtractor :=
  _load_vedantu_logo fs {| vedantu_logo_hash := None |}.

Definition _save_image (fs : Files) (image_bytes : bytes) (path : str) : bool :=
  writable fs path.

Definition _should_skip_page (self : PDFExtractor) (text : str)
    (image_infos : list N) (doc : Document) : result bool :=
  match text, image_infos, vedantu_logo_hash self with
  | [], [xref], Some logo =>
      let base_image := extract_image doc xref in
      h ← _get_image_hash (image_bytes base_image);
      Ok (bool_decide (h = logo))
  | _, _, _ => Ok false
  end.

(** *** [extract_content]: the image harvest *)

(** [self.vedantu_logo_hash and
     self._get_image_hash(image_bytes) == self.vedantu_logo_hash] *)
Definition is_logo (self : PDFExtractor) (image_bytes : bytes) : result bool :=
  match vedantu_logo_hash self with
  | Some logo => h ← _get_image_hash image_bytes; Ok (bool_decide (h = logo))
  | None => Ok false
  end.

(** [filename] and [path] of an image: [os.path.join(IMAGE_DIR, filename)]
    for [filename = f"page{page_number+1}_image{img_index}.{ext}"] *)
Definition image_path (page_number img_index : nat) (ext : str) : str :=
  let filename :=
    py "page" ++ str_of_nat (page_number + 1) ++
    py "_image" ++ str_of_nat img_index ++ py "." ++ ext in
  IMAGE_DIR ++ py "/" ++ filename.

Definition harvest_image (self : PDFExtractor) (fs : Files) (doc : Document)
    (page_number : nat) (all_images : list HarvestedImage)
    (img : nat * N) : result (list HarvestedImage) :=
  let '(img_index, xref) := img in
  let base_image := extract_image doc xref in
  let ext := lower (ext base_image) in
  if bool_decide (ext ∈ VALID_IMAGE_EXTS) then
    logo ← is_logo self (image_bytes base_image);
    if logo : bool then Ok all_images
    else
      let path := image_path page_number img_index ext in
      if _save_image fs (image_bytes base_image) path
      then Ok (all_images ++ [{| page := page_number + 1; image := path |}])
      else Ok all_images
  else Ok all_images.

Definition harvest_page (self : PDFExtractor) (fs : Files) (doc : Document)
    (all_images : list HarvestedImage) (p : nat * Page) : result (list HarvestedImage) :=
  let '(page_number, page) := p in
  for_each (harvest_image self fs doc page_number)
           (enumerate 1 (get_images page)) all_images.

Definition harvest (self : PDFExtractor) (fs : Files) (doc : Document)
    : result (list HarvestedImage) :=
  for_each (harvest_page self fs doc) (enumerate 0 (pages doc)) [].

(** *** [extract_content]: the page texts *)

Definition page_marker (page_number : nat) : str :=
  [10] ++ py "---page" ++ str_of_nat (page_number + 1) ++ py "---" ++ [10].

Definition collect_page (self : PDFExtractor) (doc : Document)
    (all_text : str) (p : nat * Page) : result str :=
  let '(page_number, page) := p in
  let text := strip (get_text page) in
  skip ← _should_skip_page self text (get_images page) doc;
  if skip : bool then Ok all_text
  else Ok (all_text ++ page_marker page_number ++ text).

Definition collect_text (self : PDFExtractor) (doc : Document) : result str :=
  for_each (collect_page self doc) (enumerate 0 (pages doc)) [].

(** *** [extract_content]: the split into questions *)

(** the lookahead of [question_pattern]: a line feed and a question
    start, or a question start where the text begins *)
Definition question_pattern (at_start : bool) (s : str) : bool :=
  match s with
  | c :: s' => is_char 10 c && bool_decide (is_Some (question_start s'))
  | [] => false
  end
  || at_start && bool_decide (is_Some (question_start s)).

(** [re.split(question_pattern, s)]: the pattern matches no character,
    so the text is cut at every place where it holds *)
Fixpoint split_questions (at_start : bool) (cur : str) (s : str) : list str :=
  match s with
  | [] => [cur]
  | c :: s' =>
      if question_pattern at_start s
      then cur :: split_questions false [c] s'
      else split_questions false (cur ++ [c]) s'
  end.

Definition raw_questions (all_text : str) : list str :=
  omap (λ q, if bool_decide (is_Some (re_match question_start (strip q)))
             then Some (strip q) else None)
       (split_questions true [] all_text).

(** *** [extract_content]: the loop over the questions *)

(** [current_page] as a condition: an [int] other than 0 *)
Definition truthy (current_page : option nat) : bool :=
  match current_page with
  | Some (S _) => true
  | _ => false
  end.

(** the choice of [question_images]; the cursor [image_index] is
    returned with it *)
Definition primary_images (all_images : list HarvestedImage) (image_index : nat)
    (clean_text : str) (current_page : option nat) : list str * nat :=
  if bool_decide (image_index < length all_images)%nat then
    if _is_question_with_image clean_text || truthy current_page then
      let page_images :=
        filter (λ img, Some (page img) = current_page) all_images in
      match page_images with
      | [] => ([], image_index)
      | _ => (image <$> page_images, image_index + length page_images)%nat
      end
    else
      match all_images !! image_index with
      | Some img => ([image img], image_index + 1)%nat
      | None => ([], image_index)
      end
  else ([], image_index).

(** the [while] loop that fills [option_images]; every turn appends one
    entry, so four turns are all it can take *)
Fixpoint option_images_loop (turns : nat) (all_images : list HarvestedImage)
    (image_index : nat) (option_images : list str) : list str * nat :=
  match turns with
  | O => (option_images, image_index)
  | S turns' =>
      if bool_decide (image_index < length all_images)%nat
         && bool_decide (length option_images < 4)%nat
      then
        match all_images !! image_index with
        | Some img =>
            option_images_loop turns' all_images (image_index + 1)%nat
                               (option_images ++ [image img])
        | None => (option_images, image_index)
        end
      else (option_images, image_index)
  end.

Definition process_question (all_images : list HarvestedImage) (image_index : nat)
    (q_text : str) : option Iteration :=
  if startswith (upper q_text) (py "CLASS") || contains (py "SECTION") (upper q_text)
  then None
  else
    match re_match question_num q_text with
    | None => None
    | Some _ =>
        let clean_text := _clean_question_text q_text in
        let current_page := int <$> re_search page_tag q_text in
        let '(question_images, image_index) :=
          primary_images all_images image_index clean_text current_page in
        let '(option_images, image_index) :=
          option_images_loop 4 all_images image_index [] in
        let question_obj : gmap string value :=
          {[ "question" := VStr clean_text;
             "images" := match question_images with
                         | first :: _ => VStr first
                         | [] => VNone
                         end ]} in
        let question_obj :=
          match option_images with
          | _ :: _ => <["option_images" := VImages option_images]> question_obj
          | [] =>
              let options := _extract_options q_text in
              match options with
              | _ :: _ => <["options" := VOptions options]> question_obj
              | [] => question_obj
              end
          end in
        Some {| clean_text := clean_text; current_page := current_page;
                question_images := question_images;
                option_images := option_images;
                image_index := image_index; question_obj := question_obj |}
    end.

Fixpoint assemble (all_images : list HarvestedImage) (image_index0 : nat)
    (raw_questions : list str) : list Iteration :=
  match raw_questions with
  | [] => []
  | q_text :: rest =>
      match process_question all_images image_index0 q_text with
      | Some it => it :: assemble all_images (image_index it) rest
      | None => assemble all_images image_index0 rest
      end
  end.

Definition questions_data (all_images : list HarvestedImage)
    (raw_questions : list str) : list (gmap string value) :=
  question_obj <$> assemble all_images 0 raw_questions.

Definition extract_content (self : PDFExtractor) (fs : Files) (doc : Document)
    : result (list (gmap string value)) :=
  all_images ← harvest self fs doc;
  all_text ← collect_text self doc;
  Ok (questions_data all_images (raw_questions all_text)).
End Extractor.

(** ** Notions the properties are stated with *)

#[export] Instance result_eq_dec {A} `{EqDecision A} : EqDecision (result A).
Proof. solve_decision. Defined.

Section Notions.
Context {unicode : UnicodeData} {imaging : Imaging}.

(** A page that is blank except for the logo: its trimmed text is empty,
    it holds exactly one embedded image, a logo fingerprint exists, and
    the fingerprint of that image is the logo's. *)
Definition logo_only (self : PDFExtractor) (doc : Document) (page : Page) : Prop :=
  strip (get_text page) = []
  ∧ length (get_images page) = 1%nat
  ∧ ∃ logo, vedantu_logo_hash self = Some logo
      ∧ ∃ xref, head (get_images page) = Some xref
          ∧ _get_image_hash (image_bytes (extract_image doc xref)) = Ok logo.

(** A page on which the fingerprint comparison is attempted and Pillow
    raises. *)
Definition logo_check_raises (self : PDFExtractor) (doc : Document) (page : Page) : Prop :=
  strip (get_text page) = []
  ∧ is_Some (vedantu_logo_hash self)
  ∧ ∃ xref, get_images page = [xref]
      ∧ _get_image_hash (image_bytes (extract_image doc xref)) = Raise.

#[export] Instance logo_only_dec self doc page : Decision (logo_only self doc page).
Proof.
  unfold logo_only.
  destruct (strip (get_text page)) as [|c t]; [|right; intros [? _]; done].
  destruct (get_images page) as [|xref [|x l]];
    [right; intros (_ & ? & _); done | | right; intros (_ & ? & _); done].
  destruct (vedantu_logo_hash self) as [logo|];
    [|right; intros (_ & _ & ? & ? & _); done].
  destruct (decide (_get_image_hash (image_bytes (extract_image doc xref)) = Ok logo))
    as [Heq|Hne].
  - left. split_and!; try done. exists logo. split; [done|]. by exists xref.
  - right. intros (_ & _ & l' & Hl & x' & Hx & Hh). simpl in Hx. congruence.
Defined.

(** The text blob as the page rule describes it: every page that is not
    blank except for the logo contributes its marker and then its
    trimmed text, in page order; the others contribute nothing. *)
Definition text_blob (self : PDFExtractor) (doc : Document) : str :=
  flat_map (λ p : nat * Page,
              if decide (logo_only self doc p.2) then []
              else page_marker p.1 ++ strip (get_text p.2))
           (enumerate 0 (pages doc)).

(** The harvest with no logo to reject: every embedded image whose
    format is accepted and whose file could be written, in document
    order. *)
Definition harvest_all (fs : Files) (doc : Document) : list HarvestedImage :=
  flat_map (λ p : nat * Page,
    omap (λ img : nat * N,
            let ext := lower (ext (extract_image doc img.2)) in
            let path := image_path p.1 img.1 ext in
            if bool_decide (ext ∈ VALID_IMAGE_EXTS) && writable fs path
            then Some {| page := p.1 + 1; image := path |}
            else None)
         (enumerate 1 (get_images p.2)))
    (enumerate 0 (pages doc)).

(** The images an iteration took through the cursor: its option images,
    and before them its primary image when the branch that reads the
    image under the cursor was the one taken. *)
Definition cursor_fed (it : Iteration) : list str :=
  (if _is_question_with_image (clean_text it) || truthy (current_page it)
   then [] else question_images it)
  ++ option_images it.

(** The value of the ["images"] entry for the candidates of an
    iteration. *)
Definition primary_value (question_images : list str) : value :=
  match question_images with
  | first :: _ => VStr first
  | [] => VNone
  end.
End Notions.

(** A word: a non-empty text with no whitespace in it. *)
Definition word (w : str) : Prop := w ≠ [] ∧ Forall (λ c, isspace c = false) w.

(** An answer-key artifact: Ans in either case of each letter, an optional
    period, any whitespace, an optional opening bracket, one letter A to D
    in either case, an optional closing bracket. *)
Inductive answer_key : str → Prop :=
  | answer_key_intro (a n s : char) (dot : bool) (ws : str) (lb : bool) (l : char) (rb : bool) :
      ieq (ch "A") a = true → ieq (ch "n") n = true → ieq (ch "s") s = true →
      Forall (λ c, isspace c = true) ws →
      in_A_D_ignorecase l = true →
      answer_key ([a; n; s] ++ (if dot then py "." else []) ++ ws ++
                  (if lb then py "[" else []) ++ [l] ++ (if rb then py "]" else [])).


(** No match of the artifact pattern begins at one of the first [n]
    positions of [text]. *)
Definition no_artifact_before (n : nat) (text : str) : Prop :=
  ∀ i : nat, (i < n)%nat → ans_artifact (drop i text) = None.

(** The span of the worked scenario. *)
Definition scenario_span : str := py "1. What is 2+2? [A] 3 [B] 4 [C] 5 [D] 6".

(** ** Tables for running examples

    On ASCII text the interpreter's tables are these: the digits 0 to 9
    with their values, and the case change of the 26 letters.  The examples
    below are ASCII texts and run with them. *)

Definition ascii_isdecimal (c : char) : bool := in_range 48 57 c.

Definition ascii_unicode : UnicodeData := {|
  isdecimal := ascii_isdecimal;
  decimal_value := λ c, N.to_nat (c - 48);
  upper := map ascii_upper;
  lower := map ascii_lower
|}.

(** A stand-in for Pillow and [hashlib] in examples: the bytes are taken
    as the pixels, and the digest is a checksum of them. *)
Definition plain_imaging : Imaging := {|
  rgb_pixels := λ data, Some data;
  md5_hexdigest := λ data, fold_left (λ h b, 31 * h + Byte.to_N b) data 7
|}.

(** ** Documents for the examples *)

(** every reference resolves to an empty PNG *)
Definition png_image : N → BaseImage := λ _, {| image_bytes := []; ext := py "png" |}.

(** no logo file; every write succeeds *)
Definition no_logo_files : Files := {| vedantu_logo := None; writable := λ _, true |}.

(** two pages, one question and one image on each *)
Definition two_page_doc : Document := {|
  pages := [ {| get_text := py "1. Q1"; get_images := [1] |};
             {| get_text := py "2. Q2"; get_images := [2] |} ];
  extract_image := png_image
|}.

(** two questions on the first page, six images on the second *)
Definition six_image_doc : Document := {|
  pages := [ {| get_text := py "1. Q1" ++ [10] ++ py "2. Q2"; get_images := [] |};
             {| get_text := []; get_images := [1; 2; 3; 4; 5; 6] |} ];
  extract_image := png_image
|}.

(** a page that holds the logo and nothing else, then a page of text; the
    logo file has the bytes of the image *)
Definition logo_bytes : bytes := [Byte.x89; Byte.x50; Byte.x4e; Byte.x47].

Definition logo_files : Files := {| vedantu_logo := Some logo_bytes; writable := λ _, true |}.

Definition logo_page : Page := {| get_text := py " "; get_images := [7] |}.





(** ** Notions for the further properties *)

Section HarvestNotions.
Context {unicode : UnicodeData}.
(** The entry of [harvest_all] for one embedded image of page
    [page_number]. *)
Definition unfiltered_entry (fs : Files) (doc : Document) (page_number : nat)
    (img : nat * N) : option HarvestedImage :=
  let ext := lower (ext (extract_image doc img.2)) in
  let path := image_path page_number img.1 ext in
  if bool_decide (ext ∈ VALID_IMAGE_EXTS) && writable fs path
  then Some {| page := page_number + 1; image := path |}
  else None.

(** The number of embedded images of a document. *)
Definition embedded_count (doc : Document) : nat :=
  length (flat_map get_images (pages doc)).
End HarvestNotions.

(** [filename] of a harvested image:
    [f"page{page_number+1}_image{img_index}.{ext}"] *)
Definition image_filename (page_number img_index : nat) (ext : str) : str :=
  py "page" ++ str_of_nat (page_number + 1) ++
  py "_image" ++ str_of_nat img_index ++ py "." ++ ext.

Section LoopNotions.
Context {unicode : UnicodeData}.
(** A span passes the two tests at the head of the loop over
    [raw_questions]. *)
Definition survives (q_text : str) : bool :=
  negb (startswith (upper q_text) (py "CLASS") || contains (py "SECTION") (upper q_text))
  && bool_decide (is_Some (re_match question_num q_text)).
End LoopNotions.

Section TagNotions.
Context {unicode : UnicodeData}.
End TagNotions.

(** The markup of an option: its bracketed label, a space, its text. *)
Definition option_markup (o : OptionRecord) : str :=
  py "[" ++ label o ++ py "] " ++ text o.

(** An option that the markup can carry: a label A to D, and a text with no
    bracket and no line feed in it that neither begins nor ends with
    whitespace (so it is not empty). *)
Definition plain_option (o : OptionRecord) : Prop :=
  label o ∈ [py "A"; py "B"; py "C"; py "D"]
  ∧ Forall (λ c, not_bracket c = true ∧ not_newline c = true) (text o)
  ∧ from_option (λ c, isspace c = false) False (head (text o))
  ∧ from_option (λ c, isspace c = false) False (last (text o)).

(** ** [generate_image_captions.py]: the loop over the image directory *)

(** [s.endswith(l)] *)
Definition endswith (s l : str) : bool := startswith (rev s) (rev l).

Definition image_dir : str := py "output/images".

Section Captions.
Context {unicode : UnicodeData}.
(** [generate_caption(image_path)]: the caption the model gives the file
    at that path (decoding is greedy, so the caption is a function of the
    file), unless opening the file or the model raises *)
Variable generate_caption : str → result str.

(** [filename.lower().endswith((".png", ".jpg", ".jpeg"))] *)
Definition caption_wanted (filename : str) : bool :=
  existsb (endswith (lower filename)) [py ".png"; py ".jpg"; py ".jpeg"].

(** the body of the loop over [os.listdir(image_dir)]; a name of the
    listing holds no separator, so [os.path.join] puts it under
    [image_dir] *)
Definition caption_file (captions : gmap (list N) (list N)) (filename : str)
    : result (gmap (list N) (list N)) :=
  if caption_wanted filename then
    let path := image_dir ++ py "/" ++ filename in
    caption ← generate_caption path;
    Ok (<[filename := caption]> captions)
  else Ok captions.

(** the dict [captions] after the loop, for the directory listing *)
Definition captions (listing : list str) : result (gmap (list N) (list N)) :=
  for_each caption_file listing ∅.
End Captions.

(** ** The run as a whole

    Above, [extract_content] is given the document, and [int] is the value
    of the digits.  The program opens the document itself, and the
    interpreter's [int] refuses a string of more digits than
    [sys.get_int_max_str_digits()] allows (4300 unless it was changed; 0
    lifts the limit).  Here both are part of the run.  Once the document
    is open, what PyMuPDF reads from it is the [Document]. *)

Module Run.
Section Run.
Context {unicode : UnicodeData} {imaging : Imaging}.
(** [sys.get_int_max_str_digits()] *)
Variable int_max_str_digits : nat.

(** [int(ds)] for a string of decimal digits: [ValueError] when the limit
    is set and the string has more digits *)
Definition int (ds : str) : result nat :=
  if bool_decide (0 < int_max_str_digits)%nat
     && bool_decide (int_max_str_digits < length ds)%nat
  then Raise
  else Ok (int ds).

(** the body of the loop over [raw_questions], on [questions_data] and
    [image_index] *)
Definition question (all_images : list HarvestedImage)
    (state : list (gmap string value) * nat) (q_text : str)
    : result (list (gmap string value) * nat) :=
  let '(questions_data, image_index) := state in
  if startswith (upper q_text) (py "CLASS") || contains (py "SECTION") (upper q_text)
  then Ok state
  else
    match re_match question_num q_text with
    | None => Ok state
    | Some _ =>
        let clean_text := _clean_question_text q_text in
        current_page ←
          match re_search page_tag q_text with
          | Some ds => n ← int ds; Ok (Some n)
          | None => Ok None
          end;
        let '(question_images, image_index) :=
          primary_images all_images image_index clean_text current_page in
        let '(option_images, image_index) :=
          option_images_loop 4 all_images image_index [] in
        let question_obj : gmap string value :=
          {[ "question" := VStr clean_text;
             "images" := match question_images with
                         | first :: _ => VStr first
                         | [] => VNone
                         end ]} in
        let question_obj :=
          match option_images with
          | _ :: _ => <["option_images" := VImages option_images]> question_obj
          | [] =>
              let options := _extract_options q_text in
              match options with
              | _ :: _ => <["options" := VOptions options]> question_obj
              | [] => question_obj
              end
          end in
        Ok (questions_data ++ [question_obj], image_index)
    end.

(** [fitz_open] is [fitz.open(PDF_PATH)]: the document, unless the file is
    missing or is no PDF that PyMuPDF can read *)
Definition extract_content (self : PDFExtractor) (fs : Files)
    (fitz_open : result Document) : result (list (gmap string value)) :=
  doc ← fitz_open;
  all_images ← harvest self fs doc;
  all_text ← collect_text self doc;
  state ← for_each (question all_images) (raw_questions all_text) ([], 0%nat);
  Ok state.1.
End Run.
End Run.

(** a text with a page tag of 4301 digits *)
Definition long_tag_text : str :=
  py "1. Q1 ---page" ++ replicate 4301 (ch "1") ++ py "---".

(** ** Further documents for the examples *)

(** a second image, which is not the logo *)
Definition figure_bytes : bytes := [Byte.x01; Byte.x02].

(** a page that holds only the logo, then a question with two embedded
    images, the first of which is the logo again *)
Definition logo_and_figure_doc : Document := {|
  pages := [ logo_page; {| get_text := py "1. Q1"; get_images := [7%N; 8%N] |} ];
  extract_image := λ xref,
    {| image_bytes := if (xref =? 7)%N then logo_bytes else figure_bytes;
       ext := py "PNG" |}
|}.

(** a captioner for examples: every file gets the same caption *)
Definition fixed_caption : list N → result (list N) := λ _, Ok (py "a cat").

(** * Properties *)

(** Arithmetic on lengths: name every length, forget the texts, and leave
    the rest to [lia]. *)
Ltac len_lia :=
  cbn [length] in *;
  repeat match goal with
  | H : context [length ?l] |- _ =>
      let n := fresh "len" in set (n := length l) in *; clearbody n
  | |- context [length ?l] =>
      let n := fresh "len" in set (n := length l) in *; clearbody n
  end;
  repeat match goal with
  | x : N |- _ => clear x
  | x : list N |- _ => clear x
  end;
  lia.

(** ** Runs of characters *)

Lemma many_app_all p ws s :
  Forall (λ c, p c = true) ws → many p (ws ++ s) = many p s.
Proof. induction 1 as [|c ws Hc _ IH]; [done|]. simpl. by rewrite Hc. Qed.

Lemma many_stop p s : from_option (λ c, p c = false) True (head s) → many p s = s.
Proof. destruct s as [|c s]; [done|]. simpl. by intros ->. Qed.

Lemma many_length p s : (length (many p s) ≤ length s)%nat.
Proof. induction s as [|c s IH]; [done|]. simpl. destruct (p c); simpl; lia. Qed.

(** ** [strip], [split] and [join] *)

Lemma lstrip_cons c s : isspace c = false → lstrip (c :: s) = c :: s.
Proof. unfold lstrip. simpl. by intros ->. Qed.

Lemma rstrip_snoc s c : isspace c = false → rstrip (s ++ [c]) = s ++ [c].
Proof.
  intros Hc. unfold rstrip. rewrite rev_app_distr. simpl. rewrite Hc.
  change (c :: rev s) with (rev [c] ++ rev s).
  by rewrite <- rev_app_distr, rev_involutive.
Qed.

Lemma rstrip_app_spaces s ws :
  Forall (λ c, isspace c = true) ws → rstrip (s ++ ws) = rstrip s.
Proof.
  intros Hws. unfold rstrip. rewrite rev_app_distr, many_app_all; [done|].
  rewrite Forall_forall in *. intros c Hc. apply Hws.
  by apply list_elem_of_In, in_rev, list_elem_of_In.
Qed.


Lemma split_go_words cur s :
  Forall (λ c, isspace c = false) cur → Forall word (split_go cur s).
Proof.
  revert cur. induction s as [|c s IH]; intros cur Hcur; simpl.
  - destruct cur; constructor; [by split|constructor].
  - destruct (isspace c) eqn:Hc.
    + destruct cur as [|c0 cur]; [by apply IH|].
      constructor; [split; done|by apply IH].
    + apply IH. apply Forall_app. split; [done|]. by constructor.
Qed.

Lemma split_words s : Forall word (split s).
Proof. by apply split_go_words. Qed.

Lemma split_go_word_prefix cur w s :
  Forall (λ c, isspace c = false) w → split_go cur (w ++ s) = split_go (cur ++ w) s.
Proof.
  intros Hw. revert cur. induction Hw as [|c w Hc _ IH]; intros cur; simpl.
  - by rewrite app_nil_r.
  - rewrite Hc, IH. by rewrite <- app_assoc.
Qed.

Lemma split_join ws : Forall word ws → split (join (py " ") ws) = ws.
Proof.
  unfold split. induction 1 as [|w ws [Hne Hw] Hws IH]; [done|].
  destruct ws as [|w' ws].
  - simpl. rewrite <- (app_nil_r w) at 1.
    rewrite split_go_word_prefix by done. simpl. by destruct w.
  - change (join (py " ") (w :: w' :: ws))
      with (w ++ 32 :: join (py " ") (w' :: ws)).
    rewrite split_go_word_prefix by done. cbn [app split_go].
    change (isspace 32) with true. cbv iota. rewrite IH. by destruct w.
Qed.

Lemma join_words_ends ws :
  Forall word ws → ws ≠ [] →
  ∃ c s, join (py " ") ws = s ++ [c] ∧ isspace c = false.
Proof.
  induction 1 as [|w ws [Hne Hw] Hws IH]; [done|]. intros _.
  destruct ws as [|w' ws].
  - simpl. destruct (exists_last Hne) as (s & c & ->).
    exists c, s. split; [done|].
    apply Forall_app in Hw as [_ Hc]. by inversion Hc.
  - destruct IH as (c & s & Hs & Hc); [done|].
    change (join (py " ") (w :: w' :: ws))
      with (w ++ py " " ++ join (py " ") (w' :: ws)).
    rewrite Hs. exists c, (w ++ py " " ++ s). by rewrite <- !app_assoc.
Qed.

Lemma strip_join_words ws :
  Forall word ws → strip (join (py " ") ws) = join (py " ") ws.
Proof.
  intros Hws. destruct ws as [|w ws]; [done|].
  destruct (join_words_ends (w :: ws)) as (c & s & Hs & Hc); [done..|].
  unfold strip. replace (lstrip (join (py " ") (w :: ws))) with (join (py " ") (w :: ws)).
  - rewrite Hs. by apply rstrip_snoc.
  - apply Forall_cons in Hws as [[Hne Hw] _].
    destruct w as [|c0 w]; [done|]. apply Forall_cons in Hw as [Hc0 _].
    destruct ws; symmetry; by apply lstrip_cons.
Qed.

(** Collapsing the whitespace of a text that is already collapsed changes
    nothing. *)
Lemma normalise_idempotent s :
  let n := strip (join (py " ") (split s)) in
  strip (join (py " ") (split n)) = n.
Proof.
  cbv zeta. pose proof (split_words s) as Hw.
  rewrite (strip_join_words _ Hw), (split_join _ Hw).
  by apply strip_join_words.
Qed.

(** ** [re.sub] and [re.split] *)

Lemma re_sub_go_skip {G} (p : pattern G) k s :
  re_sub_go p k s = re_sub_go p 0 (drop k s).
Proof.
  revert k. induction s as [|c s IH]; intros k; [by destruct k|].
  destruct k as [|k]; [done|]. apply IH.
Qed.

Lemma re_sub_no_match {G} (p : pattern G) s :
  re_search p s = None → re_sub_empty p s = s.
Proof.
  unfold re_sub_empty. induction s as [|c s IH]; [done|]. simpl.
  unfold match_length. destruct (p (c :: s)) as [[g r]|]; [done|].
  intros Hs. simpl. by rewrite IH.
Qed.

Lemma re_sub_at_match {G} (p : pattern G) g m s :
  m ≠ [] → p (m ++ s) = Some (g, s) →
  re_sub_empty p (m ++ s) = re_sub_empty p s.
Proof.
  intros Hm Hp. unfold re_sub_empty. destruct m as [|c m]; [done|].
  cbn [app re_sub_go]. unfold match_length.
  change (c :: m ++ s) with ((c :: m) ++ s). rewrite Hp.
  cbn [fmap option_fmap option_map snd].
  rewrite length_app.
  replace (length (c :: m) + length s - length s)%nat with (S (length m))
    by (cbn [length]; lia).
  rewrite re_sub_go_skip. by rewrite drop_app_length.
Qed.

Lemma re_sub_no_start {G} (p : pattern G) pre s :
  (∀ i, (i < length pre)%nat → p (drop i pre ++ s) = None) →
  re_sub_empty p (pre ++ s) = pre ++ re_sub_empty p s.
Proof.
  unfold re_sub_empty. induction pre as [|c pre IH]; intros Hpre; [done|].
  cbn [app re_sub_go]. unfold match_length.
  change (c :: pre ++ s) with (drop 0 (c :: pre) ++ s).
  rewrite Hpre by (cbn [length]; lia). cbn [fmap option_fmap option_map].
  cbn [drop]. f_equal. apply IH.
  intros i Hi. apply (Hpre (S i)). cbn [length]. lia.
Qed.

Lemma re_split_go_skip {G} (p : pattern G) k cur s :
  re_split_go p k cur s = re_split_go p 0 cur (drop k s).
Proof.
  revert k. induction s as [|c s IH]; intros k; [by destruct k|].
  destruct k as [|k]; [done|]. apply IH.
Qed.

Lemma re_split_at_match {G} (p : pattern G) g m s :
  m ≠ [] → p (m ++ s) = Some (g, s) →
  re_split p (m ++ s) = [] :: m :: re_split p s.
Proof.
  intros Hm Hp. unfold re_split. destruct m as [|c m]; [done|].
  cbn [app re_split_go]. unfold match_length.
  change (c :: m ++ s) with ((c :: m) ++ s). rewrite Hp.
  cbn [fmap option_fmap option_map snd].
  rewrite length_app.
  replace (length (c :: m) + length s - length s)%nat with (S (length m))
    by (cbn [length]; lia).
  rewrite re_split_go_skip, drop_app_length.
  replace (S (length m)) with (length (c :: m)) by done.
  by rewrite take_app_length.
Qed.

(** ** What a match consumes *)

Lemma literal_length l s r : literal l s = Some r → length s = (length l + length r)%nat.
Proof.
  revert s. induction l as [|a l IH]; intros s; cbn [literal].
  - destruct s; intros [= <-]; done.
  - destruct s as [|c s]; [done|]. destruct (a =? c); [|done].
    intros ?%IH. cbn [length]. lia.
Qed.

Lemma iliteral_length l s r : iliteral l s = Some r → length s = (length l + length r)%nat.
Proof.
  revert s. induction l as [|a l IH]; intros s; cbn [iliteral].
  - destruct s; intros [= <-]; done.
  - destruct s as [|c s]; [done|]. destruct (ieq a c); [|done].
    intros ?%IH. cbn [length]. lia.
Qed.

Lemma one_length p s r : one p s = Some r → length s = S (length r).
Proof. destruct s as [|c s]; simpl; [done|]. destruct (p c); congruence. Qed.

Lemma maybe_length p s : (length (maybe p s) ≤ length s)%nat.
Proof. destruct s as [|c s]; simpl; [done|]. destruct (p c); simpl; lia. Qed.

Lemma ans_artifact_consumes s g r :
  ans_artifact s = Some (g, r) → (length r < length s)%nat.
Proof.
  unfold ans_artifact. intros Hm.
  destruct (iliteral (py "Ans") s) as [s1|] eqn:H1; [|done].
  apply iliteral_length in H1. cbn [mbind option_bind] in Hm.
  destruct (one in_A_D_ignorecase _) as [s2|] eqn:H2; [|done].
  apply one_length in H2. cbn [mbind option_bind] in Hm. simplify_eq.
  pose proof (maybe_length (is_char (ch "]")) s2).
  pose proof (maybe_length (is_char (ch "[")) (many isspace (maybe (is_char (ch ".")) s1))).
  pose proof (many_length isspace (maybe (is_char (ch ".")) s1)).
  pose proof (maybe_length (is_char (ch ".")) s1).
  cbn [length py map list_ascii_of_string] in *. lia.
Qed.

Section Consumes.
Context {unicode : UnicodeData}.

Lemma page_tag_consumes s g r :
  page_tag s = Some (g, r) → (length r < length s)%nat.
Proof.
  unfold page_tag. intros Hm.
  destruct (literal (py "---page") s) as [s1|] eqn:H1; [|done].
  apply literal_length in H1. cbn [mbind option_bind] in Hm.
  destruct (digits s1) as [[ds s2]|] eqn:H2; [|done].
  cbn [mbind option_bind] in Hm.
  destruct (literal (py "---") s2) as [s3|] eqn:H3; [|done].
  apply literal_length in H3. cbn [mbind option_bind] in Hm. simplify_eq.
  unfold digits in H2. destruct (run isdecimal s1); [done|]. simplify_eq.
  pose proof (many_length isdecimal s1) as H0.
  cbn [length py map list_ascii_of_string] in *.
  clear -H1 H3 H0. lia.
Qed.
End Consumes.

Lemma re_sub_go_length {G} (p : pattern G) k s :
  (length (re_sub_go p k s) ≤ length s)%nat.
Proof.
  revert k. induction s as [|c s IH]; intros k; [done|]. cbn [re_sub_go].
  destruct k as [|k].
  - destruct (match_length p (c :: s)) as [[|k]|]; cbn [length].
    + specialize (IH 0%nat). lia.
    + specialize (IH k). lia.
    + specialize (IH 0%nat). lia.
  - specialize (IH k). cbn [length]. lia.
Qed.

Lemma re_sub_shrinks {G} (p : pattern G) s :
  (∀ s g r, p s = Some (g, r) → (length r < length s)%nat) →
  re_search p s ≠ None → (length (re_sub_empty p s) < length s)%nat.
Proof.
  intros Hp. unfold re_sub_empty. induction s as [|c s IH]; cbn [re_search].
  - destruct (p []) as [[g r]|] eqn:Hm; [|done].
    apply Hp in Hm. cbn [length] in Hm. lia.
  - cbn [re_sub_go]. unfold match_length.
    destruct (p (c :: s)) as [[g r]|] eqn:Hm.
    + intros _. apply Hp in Hm. cbn [fmap option_fmap option_map snd].
      destruct (length (c :: s) - length r)%nat as [|k] eqn:Hk; [lia|].
      pose proof (re_sub_go_length p k s). cbn [length]. lia.
    + intros Hs%IH. cbn [fmap option_fmap option_map length]. lia.
Qed.

Lemma join_cons_length sep x l :
  (length (join sep (x :: l)) ≤ length x + length sep + length (join sep l))%nat.
Proof. destruct l; cbn [join]; rewrite ?length_app; cbn [length]; lia. Qed.

Lemma split_go_join_length cur s :
  (length (join (py " ") (split_go cur s)) ≤ length cur + length s)%nat.
Proof.
  revert cur. induction s as [|c s IH]; intros cur; cbn [split_go].
  - destruct cur; cbn [join length]; lia.
  - destruct (isspace c).
    + destruct cur as [|c0 cur].
      * specialize (IH []). len_lia.
      * pose proof (join_cons_length (py " ") (c0 :: cur) (split_go [] s)).
        specialize (IH []). cbn [length py map list_ascii_of_string] in *. len_lia.
    + specialize (IH (cur ++ [c])). rewrite length_app in IH. len_lia.
Qed.

Lemma strip_length s : (length (strip s) ≤ length s)%nat.
Proof.
  unfold strip, rstrip, lstrip. rewrite length_rev.
  pose proof (many_length isspace (rev (many isspace s))).
  rewrite length_rev in *. pose proof (many_length isspace s). lia.
Qed.

Lemma normalise_length s : (length (strip (join (py " ") (split s))) ≤ length s)%nat.
Proof.
  pose proof (strip_length (join (py " ") (split s))).
  pose proof (split_go_join_length [] s). unfold split in *. len_lia.
Qed.

(** ** Characters *)

Lemma not_char (p : char → bool) a c : p a = false → p c = true → is_char a c = false.
Proof. unfold is_char. intros Ha Hc. destruct (N.eqb_spec c a) as [->|]; congruence. Qed.

Lemma is_char_refl a : is_char a a = true.
Proof. apply N.eqb_refl. Qed.

Lemma in_A_D_ignorecase_not_space l : in_A_D_ignorecase l = true → isspace l = false.
Proof.
  intros Hl. apply not_true_is_false. intros Hs. revert Hl Hs.
  unfold in_A_D_ignorecase, isspace, in_range.
  rewrite !orb_true_iff, !andb_true_iff, !N.leb_le, !N.eqb_eq. lia.
Qed.

Lemma isspace_not_bracket c : isspace c = true → not_bracket c = true.
Proof.
  intros Hc. unfold not_bracket.
  by rewrite (not_char isspace (ch "[") c), (not_char isspace (ch "]") c).
Qed.

Lemma in_A_D_label l :
  in_A_D l = true → [l] ∈ [py "A"; py "B"; py "C"; py "D"].
Proof.
  unfold in_A_D, in_range. rewrite andb_true_iff, !N.leb_le. intros [Hlo Hhi].
  assert (l = 65 ∨ l = 66 ∨ l = 67 ∨ l = 68) as [-> | [-> | [-> | ->]]] by lia;
    set_solver.
Qed.

Lemma maybe_stop p s : from_option (λ c, p c = false) True (head s) → maybe p s = s.
Proof. destruct s as [|c s]; [done|]. simpl. by intros ->. Qed.

(** ** The artifact pattern on an answer key *)

Lemma ans_artifact_answer_key art post :
  answer_key art →
  last art = Some (ch "]") ∨ head post ≠ Some (ch "]") →
  ans_artifact (art ++ post) = Some ((), post).
Proof.
  intros [a n s dot ws lb l rb Ha Hn Hs Hws Hl] Hend.
  pose proof (in_A_D_ignorecase_not_space l Hl) as Hlsp.
  unfold ans_artifact. rewrite <- !app_assoc.
  change (py "Ans") with [ch "A"; ch "n"; ch "s"].
  cbn [app iliteral]. rewrite Ha, Hn, Hs. cbn [mbind option_bind].
  set (Z := (if rb then py "]" else []) ++ post).
  set (Y := (if lb then py "[" else []) ++ l :: Z).
  assert (from_option (λ c, isspace c = false) True (head Y)) as HY.
  { unfold Y. by destruct lb. }
  assert (maybe (is_char (ch ".")) ((if dot then py "." else []) ++ ws ++ Y) = ws ++ Y)
    as ->.
  { destruct dot; [done|]. apply maybe_stop. cbn [app].
    destruct Hws as [|c ws Hc _]; cbn [app head from_option].
    - unfold Y. destruct lb; [done|]. cbn [app head from_option].
      by apply (not_char in_A_D_ignorecase).
    - by apply (not_char isspace). }
  rewrite many_app_all by done. rewrite many_stop by done.
  assert (maybe (is_char (ch "[")) Y = l :: Z) as ->.
  { unfold Y. destruct lb; [done|]. apply maybe_stop. cbn [app head from_option].
    by apply (not_char in_A_D_ignorecase). }
  cbn [one]. rewrite Hl. cbn [mbind option_bind].
  do 2 f_equal. unfold Z. destruct rb; [done|]. apply maybe_stop. cbn [app].
  destruct Hend as [Hlast|Hpost].
  - rewrite !app_assoc, app_nil_r, last_snoc in Hlast.
    injection Hlast as ->. done.
  - destruct post as [|c post]; [done|]. cbn [head from_option] in *.
    unfold is_char. destruct (N.eqb_spec c (ch "]")) as [->|]; [done|done].
Qed.

Lemma answer_key_nonempty art : answer_key art → art ≠ [].
Proof. by intros []. Qed.

Section Clean.
Context {unicode : UnicodeData}.

Lemma clean_of_clean text :
  let cleaned := _clean_question_text text in
  _clean_question_text cleaned =
    strip (join (py " ") (split
      (re_sub_empty page_tag (re_sub_empty ans_artifact cleaned)))).
Proof. done. Qed.

Lemma clean_fixed_point text :
  _clean_question_text text = text →
  re_search ans_artifact text = None ∧ re_search page_tag text = None.
Proof.
  intros Hfix. pose proof (f_equal length Hfix) as Hlen.
  unfold _clean_question_text in Hlen.
  pose proof (normalise_length (re_sub_empty page_tag (re_sub_empty ans_artifact text))) as H1.
  pose proof (re_sub_go_length page_tag 0 (re_sub_empty ans_artifact text)) as H2.
  pose proof (re_sub_go_length ans_artifact 0 text) as H3.
  fold (re_sub_empty page_tag (re_sub_empty ans_artifact text)) in H2.
  fold (re_sub_empty ans_artifact text) in H3.
  assert (re_search ans_artifact text = None) as Hans.
  { destruct (re_search ans_artifact text) eqn:Hs; [|done].
    pose proof (re_sub_shrinks ans_artifact text ans_artifact_consumes) as H4.
    rewrite Hs in H4. specialize (H4 ltac:(done)). len_lia. }
  split; [done|]. rewrite (re_sub_no_match _ _ Hans) in *.
  destruct (re_search page_tag text) eqn:Hs; [|done].
  pose proof (re_sub_shrinks page_tag text page_tag_consumes) as H4.
  rewrite Hs in H4. specialize (H4 ltac:(done)). len_lia.
Qed.

Lemma clean_idempotent_iff text :
  _clean_question_text (_clean_question_text text) = _clean_question_text text
  ↔ re_search ans_artifact (_clean_question_text text) = None
    ∧ re_search page_tag (_clean_question_text text) = None.
Proof.
  split; [apply clean_fixed_point|]. intros [Hans Htag].
  rewrite clean_of_clean. cbv zeta.
  rewrite (re_sub_no_match _ _ Hans), (re_sub_no_match _ _ Htag).
  apply normalise_idempotent.
Qed.

End Clean.

(** ** [_extract_options] *)

Lemma option_of_part_valid part o :
  option_of_part part = Some o →
  label o ∈ [py "A"; py "B"; py "C"; py "D"] ∧ text o ≠ [].
Proof.
  unfold option_of_part. destruct (strip part) as [|c stripped]; [done|].
  unfold re_match, option_entry. cbn [one].
  destruct (is_char (ch "[") c); [|done]. cbn [mbind option_bind].
  destruct stripped as [|l s]; [done|].
  destruct (in_A_D l) eqn:Hl; [|done].
  destruct (one (is_char (ch "]")) s) as [s'|]; [|done].
  cbn [mbind option_bind fmap option_fmap option_map fst].
  destruct (strip (run not_newline s')) as [|c' t] eqn:Ht; [done|].
  intros [= <-]. cbn [label text]. split; [by apply in_A_D_label|done].
Qed.

Lemma extract_options_valid question_text :
  Forall (λ o, label o ∈ [py "A"; py "B"; py "C"; py "D"] ∧ text o ≠ [])
         (_extract_options question_text).
Proof.
  apply Forall_forall. intros o (part & _ & Ho)%list_elem_of_omap.
  by eapply option_of_part_valid.
Qed.

Lemma extract_options_blank_label l ws rest :
  in_A_D l = true →
  Forall (λ c, isspace c = true) ws →
  from_option (λ c, not_bracket c = false) True (head rest) →
  _extract_options (py "[" ++ [l] ++ py "]" ++ ws ++ rest) = _extract_options rest.
Proof.
  intros Hl Hws Hrest. unfold _extract_options. cbv zeta.
  change (py "[" ++ [l] ++ py "]" ++ ws ++ rest)
    with (([ch "["; l; ch "]"] ++ ws) ++ rest).
  rewrite (re_split_at_match option_part () ([ch "["; l; ch "]"] ++ ws) rest); [|done|].
  - cbn [omap list_omap].
    assert (option_of_part [] = None) as -> by done.
    assert (option_of_part ([ch "["; l; ch "]"] ++ ws) = None) as ->; [|done].
    unfold option_of_part, strip.
    change ([ch "["; l; ch "]"] ++ ws) with (ch "[" :: [l; ch "]"] ++ ws).
    rewrite lstrip_cons by done.
    change (ch "[" :: [l; ch "]"] ++ ws) with (([ch "["; l] ++ [ch "]"]) ++ ws).
    rewrite rstrip_app_spaces by done. rewrite rstrip_snoc by done.
    cbn [app]. unfold re_match, option_entry. cbn [one].
    rewrite is_char_refl. cbn [mbind option_bind]. rewrite Hl.
    cbn [one]. rewrite is_char_refl. done.
  - unfold option_part. cbn [app one].
    rewrite is_char_refl. cbn [mbind option_bind one]. rewrite Hl.
    cbn [mbind option_bind one]. rewrite is_char_refl.
    cbn [mbind option_bind]. do 2 f_equal.
    rewrite many_app_all; [by rewrite many_stop|].
    eapply Forall_impl; [exact Hws|]. apply isspace_not_bracket.
Qed.

(** ** The loop over the questions *)

Local Close Scope N_scope.

Section Assembly.
Context {unicode : UnicodeData}.

Lemma option_images_loop_spec turns all_images c acc :
  option_images_loop turns all_images c acc =
    let taken := take (Nat.min turns (4 - length acc)) (drop c all_images) in
    (acc ++ (image <$> taken), c + length taken)%nat.
Proof.
  revert c acc. induction turns as [|turns IH]; intros c acc;
    cbn [option_images_loop].
  - cbn. by rewrite app_nil_r, Nat.add_0_r.
  - destruct (bool_decide_reflect (c < length all_images)) as [Hc|Hc];
      cbn [andb].
    + destruct (bool_decide_reflect (length acc < 4)) as [Ha|Ha].
      * destruct (lookup_lt_is_Some_2 all_images c Hc) as [img Himg].
        rewrite Himg, IH. rewrite (drop_S _ _ _ Himg).
        rewrite length_app. cbn [length].
        assert (Nat.min (S turns) (4 - length acc)
          = (S (Nat.min turns (4 - (length acc + 1))))) as -> by (clear -Ha; lia).
        cbn [take fmap list_fmap length]. rewrite <- app_assoc.
        cbn [app]. rewrite !Nat.add_1_r. f_equal. lia.
      * replace (4 - length acc)%nat with 0%nat by lia.
        rewrite Nat.min_0_r. cbn. by rewrite app_nil_r, Nat.add_0_r.
    + rewrite drop_ge by lia. rewrite take_nil. cbn.
      by rewrite app_nil_r, Nat.add_0_r.
Qed.

(** The three ways [primary_images] can end: the image under the cursor,
    the images of the page, or nothing because the cursor is past the
    list. *)
Lemma primary_images_cases all_images c text pg qi c' :
  primary_images all_images c text pg = (qi, c') →
  (_is_question_with_image text || truthy pg = false
     ∧ ∃ img, all_images !! c = Some img ∧ qi = [image img] ∧ c' = S c)
  ∨ (_is_question_with_image text || truthy pg = true
     ∧ c < length all_images ∧ c ≤ c' ∧ c' ≤ c + length all_images)
  ∨ (length all_images ≤ c ∧ qi = [] ∧ c' = c).
Proof.
  unfold primary_images. intros Hp.
  destruct (bool_decide_reflect (c < length all_images)) as [Hc|Hc].
  - destruct (_is_question_with_image text || truthy pg) eqn:Hh.
    + right. left. split; [done|].
      pose proof (length_filter (λ img, Some (page img) = pg) all_images) as Hlen.
      destruct (filter _ all_images) as [|x l] eqn:Hf; simplify_eq; [lia|].
      cbn [length] in *. lia.
    + left. split; [done|].
      destruct (lookup_lt_is_Some_2 all_images c Hc) as [img Himg].
      rewrite Himg in Hp. simplify_eq. exists img. split_and!; [done..|lia].
  - right. right. simplify_eq. split_and!; [lia|done..].
Qed.

Lemma process_question_inv all_images c q_text it :
  process_question all_images c q_text = Some it →
  ∃ c1,
    primary_images all_images c (clean_text it) (current_page it)
      = (question_images it, c1)
    ∧ option_images_loop 4 all_images c1 [] = (option_images it, image_index it)
    ∧ question_obj it =
        let obj : gmap string value :=
          {[ "question" := VStr (clean_text it);
             "images" := primary_value (question_images it) ]} in
        match option_images it with
        | _ :: _ => <["option_images" := VImages (option_images it)]> obj
        | [] =>
            match _extract_options q_text with
            | _ :: _ => <["options" := VOptions (_extract_options q_text)]> obj
            | [] => obj
            end
        end.
Proof.
  unfold process_question. intros Hp.
  destruct (startswith _ _ || contains _ _); [done|].
  destruct (re_match question_num q_text); [|done].
  destruct (primary_images _ _ _ _) as [qi c1] eqn:Hq.
  destruct (option_images_loop _ _ _ _) as [oi c2] eqn:Ho.
  simplify_eq. simpl. exists c1. by rewrite Hq.
Qed.

Lemma assemble_Forall (P : Iteration → Prop) all_images :
  (∀ c q_text it, process_question all_images c q_text = Some it → P it) →
  ∀ c raw, Forall P (assemble all_images c raw).
Proof.
  intros HP c raw. revert c.
  induction raw as [|q_text raw IH]; intros c; cbn [assemble]; [constructor|].
  destruct (process_question all_images c q_text) as [it|] eqn:Hq; [|done].
  constructor; [by eapply HP|done].
Qed.

Lemma question_obj_images all_images c q_text it :
  process_question all_images c q_text = Some it →
  question_obj it !! "images" = Some (primary_value (question_images it)).
Proof.
  intros (c1 & _ & _ & ->)%process_question_inv. cbv zeta.
  destruct (option_images it); [destruct (_extract_options q_text)|];
    by simplify_map_eq.
Qed.

Lemma question_obj_exclusive all_images c q_text it :
  process_question all_images c q_text = Some it →
  question_obj it !! "options" = None ∨ question_obj it !! "option_images" = None.
Proof.
  intros (c1 & _ & _ & ->)%process_question_inv. cbv zeta.
  destruct (option_images it); [destruct (_extract_options q_text)|].
  - left. by simplify_map_eq.
  - right. by simplify_map_eq.
  - left. by simplify_map_eq.
Qed.

(** One iteration moves the cursor forward only, and keeps it under the
    bound. *)
Lemma process_question_cursor all_images c q_text it :
  process_question all_images c q_text = Some it →
  c ≤ image_index it
  ∧ (c ≤ Nat.max (length all_images) (2 * length all_images - 1) →
     image_index it ≤ Nat.max (length all_images) (2 * length all_images - 1)).
Proof.
  intros (c1 & Hp & Ho & _)%process_question_inv.
  rewrite option_images_loop_spec in Ho. cbv zeta in Ho.
  injection Ho as _ Hc2.
  rewrite length_take, length_drop in Hc2.
  apply primary_images_cases in Hp as
    [(_ & img & Himg%lookup_lt_Some & _ & ->)|[(_ & ? & ? & ?)|(? & _ & ->)]];
    cbn [length] in *; lia.
Qed.

Lemma drop_taken {A} (l : list A) c k :
  drop (c + length (take k (drop c l))) l = drop k (drop c l).
Proof.
  rewrite drop_drop, length_take, length_drop.
  destruct (decide (k ≤ length l - c)) as [Hk|Hk].
  - by rewrite Nat.min_l.
  - rewrite !drop_ge; [done|lia..].
Qed.

Lemma assemble_cursor_fed all_images c raw :
  concat (cursor_fed <$> assemble all_images c raw)
    `sublist_of` (image <$> drop c all_images).
Proof.
  revert c. induction raw as [|q_text raw IH]; intros c; cbn [assemble].
  - apply sublist_nil_l.
  - destruct (process_question all_images c q_text) as [it|] eqn:Hq; [|done].
    cbn [fmap list_fmap concat].
    apply process_question_inv in Hq as (c1 & Hp & Ho & _).
    rewrite option_images_loop_spec in Ho. cbv zeta in Ho.
    injection Ho as Hoi Hc2. cbn [app] in Hoi.
    specialize (IH (image_index it)). rewrite <- Hc2, drop_taken in IH.
    assert (option_images it ++ concat (cursor_fed <$> assemble all_images (image_index it) raw)
              `sublist_of` (image <$> drop c1 all_images)) as Hrest.
    { rewrite <- Hoi.
      rewrite <- (take_drop 4 (drop c1 all_images)) at 2.
      rewrite fmap_app, <- Hc2. by apply sublist_app. }
    unfold cursor_fed at 1. rewrite <- app_assoc.
    apply primary_images_cases in Hp as
      [(-> & img & Himg & -> & ->)|[(-> & ? & ? & ?)|(? & -> & ->)]].
    + rewrite (drop_S _ _ _ Himg). cbn [app fmap list_fmap].
      by apply sublist_skip.
    + cbn [app]. etrans; [exact Hrest|].
      apply fmap_sublist.
      replace c1 with (c + (c1 - c)) by lia. rewrite <- drop_drop.
      apply sublist_drop.
    + by destruct (_ || _).
Qed.
End Assembly.

(** ** Loops that only append *)

Lemma for_each_app {A B} (body : list B → A → result (list B)) (f : A → list B) l s :
  (∀ s x, x ∈ l → body s x = Ok (s ++ f x)) →
  for_each body l s = Ok (s ++ flat_map f l).
Proof.
  revert s. induction l as [|x l IH]; intros s Hbody; cbn [for_each flat_map].
  - by rewrite app_nil_r.
  - rewrite Hbody by set_solver. cbn [mbind result_bind].
    rewrite IH by (intros; apply Hbody; set_solver). by rewrite app_assoc.
Qed.

Lemma flat_map_option_list {A B} (f : A → option B) l :
  flat_map (λ x, option_list (f x)) l = omap f l.
Proof.
  induction l as [|x l IH]; [done|]. cbn [flat_map omap list_omap].
  rewrite IH. by destruct (f x).
Qed.

Lemma enumerate_elem {A} (l : list A) start i x :
  (i, x) ∈ enumerate start l → x ∈ l.
Proof.
  revert start. induction l as [|y l IH]; intros start; cbn [enumerate].
  - by intros ?%elem_of_nil.
  - intros [[= _ ->]|?%IH]%elem_of_cons; set_solver.
Qed.

Section Pages.
Context {unicode : UnicodeData} {imaging : Imaging}.

(** What [_should_skip_page] answers on a page. *)
Lemma should_skip_page_cases self doc page :
  let answer :=
    _should_skip_page self (strip (get_text page)) (get_images page) doc in
  (answer = Ok true ∧ logo_only self doc page)
  ∨ (answer = Ok false ∧ ¬ logo_only self doc page)
  ∨ (answer = Raise ∧ logo_check_raises self doc page).
Proof.
  cbv zeta. unfold _should_skip_page, logo_only, logo_check_raises.
  destruct (strip (get_text page)) as [|c t];
    [|right; left; split; [done|by intros [? _]]].
  destruct (get_images page) as [|xref [|x l]];
    [right; left; split; [done|by intros (_ & ? & _)] |
    | right; left; split; [done|by intros (_ & ? & _)]].
  destruct (vedantu_logo_hash self) as [logo|];
    [|right; left; split; [done|by intros (_ & _ & ? & ? & _)]].
  destruct (_get_image_hash (image_bytes (extract_image doc xref))) as [h|] eqn:Hh;
    cbn [mbind result_bind].
  - destruct (bool_decide_reflect (h = logo)) as [->|Hne].
    + left. split; [done|]. split_and!; try done.
      exists logo. split; [done|]. by exists xref.
    + right. left. split; [done|].
      intros (_ & _ & logo' & [= <-] & xref' & [= <-] & Hh').
      congruence.
  - right. right. split; [done|]. split_and!; try done. by exists xref.
Qed.

Lemma should_skip_page_iff self doc page :
  _should_skip_page self (strip (get_text page)) (get_images page) doc = Ok true
  ↔ logo_only self doc page.
Proof.
  destruct (should_skip_page_cases self doc page)
    as [[-> ?]|[[-> ?]|[-> Hraise]]]; [done| |].
  - split; [done|]. intros; done.
  - split; [done|]. intros (_ & _ & logo & _ & xref & Hx & Hh).
    destruct Hraise as (_ & _ & xref' & Hx' & Hh'). rewrite Hx' in Hx.
    cbn in Hx. congruence.
Qed.

Lemma collect_loop self doc l all_text :
  match for_each (collect_page self doc) l all_text with
  | Ok all_text' =>
      all_text' = all_text ++
        flat_map (λ p : nat * Page,
                    if decide (logo_only self doc p.2) then []
                    else page_marker p.1 ++ strip (get_text p.2)) l
  | Raise => ∃ p, p ∈ l ∧ logo_check_raises self doc p.2
  end.
Proof.
  revert all_text. induction l as [|[page_number page] l IH]; intros all_text;
    cbn [for_each flat_map].
  - by rewrite app_nil_r.
  - change (collect_page self doc all_text (page_number, page))
      with (skip ← _should_skip_page self (strip (get_text page)) (get_images page) doc;
            if skip : bool then Ok all_text
            else Ok (all_text ++ page_marker page_number ++ strip (get_text page))).
    destruct (should_skip_page_cases self doc page) as [[-> ?]|[[-> ?]|[-> ?]]];
      cbn [mbind result_bind snd fst].
    + specialize (IH all_text). rewrite decide_True by done.
      destruct (for_each _ l all_text); [done|].
      destruct IH as (p & ? & ?). exists p. set_solver.
    + specialize (IH (all_text ++ page_marker page_number ++ strip (get_text page))).
      rewrite decide_False by done.
      destruct (for_each _ l _).
      * by rewrite IH, <- !app_assoc.
      * destruct IH as (p & ? & ?). exists p. set_solver.
    + exists (page_number, page). set_solver.
Qed.

Lemma collect_text_blob self doc :
  match collect_text self doc with
  | Ok all_text => all_text = text_blob self doc
  | Raise => ∃ page, page ∈ pages doc ∧ logo_check_raises self doc page
  end.
Proof.
  unfold collect_text, text_blob.
  pose proof (collect_loop self doc (enumerate 0 (pages doc)) []) as Hl.
  destruct (for_each _ _ _); [done|].
  destruct Hl as ([i page] & Hp%enumerate_elem & ?). by exists page.
Qed.

(** With no logo fingerprint nothing is compared, nothing is skipped and
    nothing is rejected. *)
Lemma no_logo_skip self text image_infos doc :
  vedantu_logo_hash self = None →
  _should_skip_page self text image_infos doc = Ok false.
Proof.
  intros Hno. unfold _should_skip_page. rewrite Hno.
  destruct text; [|done]. by destruct image_infos as [|? [|? ?]].
Qed.

Lemma no_logo_collect self doc :
  vedantu_logo_hash self = None →
  collect_text self doc =
    Ok (flat_map (λ p : nat * Page, page_marker p.1 ++ strip (get_text p.2))
                 (enumerate 0 (pages doc))).
Proof.
  intros Hno. unfold collect_text. rewrite <- (app_nil_l (flat_map _ _)).
  apply for_each_app. intros s [page_number page] _. unfold collect_page.
  by rewrite no_logo_skip.
Qed.

Lemma no_logo_harvest self fs doc :
  vedantu_logo_hash self = None →
  harvest self fs doc = Ok (harvest_all fs doc).
Proof.
  intros Hno. unfold harvest, harvest_all.
  rewrite <- (app_nil_l (flat_map _ _)).
  apply for_each_app. intros s [page_number page] _. unfold harvest_page.
  rewrite <- flat_map_option_list.
  apply for_each_app. intros s' [img_index xref] _.
  unfold harvest_image, is_logo, _save_image. rewrite Hno.
  cbn [mbind result_bind fst snd].
  destruct (bool_decide _); cbn [andb]; [|by rewrite app_nil_r].
  destruct (writable fs _); [done|by rewrite app_nil_r].
Qed.
End Pages.

(** ** An answer key that the scan reaches *)

Lemma re_sub_before {G} (p : pattern G) pre s :
  (∀ i, i < length pre → p (drop i (pre ++ s)) = None) →
  re_sub_empty p (pre ++ s) = pre ++ re_sub_empty p s.
Proof.
  intros Hpre. apply re_sub_no_start. intros i Hi.
  rewrite <- (Hpre i Hi). by rewrite drop_app_le by lia.
Qed.

Lemma sub_reached_answer_key pre art post :
  answer_key art →
  last art = Some (ch "]") ∨ head post ≠ Some (ch "]") →
  no_artifact_before (length pre) (pre ++ art ++ post) →
  re_sub_empty ans_artifact (pre ++ art ++ post) = pre ++ re_sub_empty ans_artifact post.
Proof.
  intros Hart Hend Hpre. rewrite re_sub_before by exact Hpre. f_equal.
  eapply re_sub_at_match; [by apply answer_key_nonempty|].
  by apply ans_artifact_answer_key.
Qed.

Section ReachedKey.
Context {unicode : UnicodeData}.

Lemma clean_reached_answer_key pre art post :
  answer_key art →
  last art = Some (ch "]") ∨ head post ≠ Some (ch "]") →
  no_artifact_before (length pre) (pre ++ art ++ post) →
  no_artifact_before (length pre) (pre ++ post) →
  _clean_question_text (pre ++ art ++ post) = _clean_question_text (pre ++ post).
Proof.
  intros Hart Hend Hpre Hcut. unfold _clean_question_text.
  rewrite (sub_reached_answer_key pre art post) by done.
  by rewrite (re_sub_before ans_artifact pre post) by exact Hcut.
Qed.
End ReachedKey.

(** ** The marker, character by character *)

Section Markers.
Context {unicode : UnicodeData} {imaging : Imaging}.

End Markers.

(** * The properties of the extraction stage *)

Section Claims.
Context {unicode : UnicodeData} {imaging : Imaging}.

(** The cursor values at the ends of the iterations, from any start. *)
Lemma assemble_cursors all_images c spans :
  let bound := Nat.max (length all_images) (2 * length all_images - 1) in
  let cursors := image_index <$> assemble all_images c spans in
  StronglySorted le (c :: cursors) ∧ (c ≤ bound → Forall (λ c', c' ≤ bound) cursors).
Proof.
  cbv zeta. revert c. induction spans as [|q_text spans IH]; intros c;
    cbn [assemble].
  - split; [repeat constructor|constructor].
  - destruct (process_question all_images c q_text) as [it|] eqn:Hq; [|done].
    apply process_question_cursor in Hq as [Hle Hbound].
    destruct (IH (image_index it)) as [Hsorted Hall].
    cbn [fmap list_fmap]. split.
    + constructor; [done|]. constructor; [done|].
      apply StronglySorted_inv in Hsorted as [_ Hfrom].
      eapply Forall_impl; [exact Hfrom|]. cbn. lia.
    + intros Hc. constructor; auto.
Qed.

Lemma primary_images_cursor all_images c text pg :
  c ≤ (primary_images all_images c text pg).2.
Proof.
  destruct (primary_images all_images c text pg) as [qi c'] eqn:Hp.
  apply primary_images_cases in Hp as
    [(_ & _ & _ & _ & ->)|[(_ & _ & ? & _)|(_ & _ & ->)]]; cbn; lia.
Qed.

Lemma option_images_loop_cursor turns all_images c acc :
  c ≤ (option_images_loop turns all_images c acc).2.
Proof. rewrite option_images_loop_spec. cbn. lia. Qed.

(** C1, as amended.  Over one pass of the loop, the images taken through
    the cursor -- every question's option images, and its primary image
    when the branch that reads the image under the cursor was taken --
    are, in the order taken, a subsequence of the harvested list: each
    position of the list is taken through the cursor at most once, and in
    harvest order.  (Primary candidates chosen by page number are not taken
    through the cursor and are not covered.) *)
Theorem cursor_fed_in_harvest_order (all_images : list HarvestedImage) (spans : list str) :
  concat (cursor_fed <$> assemble all_images 0 spans)
    `sublist_of` (image <$> all_images).
Proof. exact (assemble_cursor_fed all_images 0 spans). Qed.

(** C2, as amended.  Over one pass of the loop the cursor never decreases:
    starting from 0, its values at the ends of the iterations are sorted,
    and within an iteration neither the choice of the primary images nor
    the loop over the option images moves it back.  It stays within the
    larger of the list length and twice the list length minus one; it can
    pass the list length itself. *)
Theorem cursor_monotone_and_bounded (all_images : list HarvestedImage) (spans : list str) :
  let cursors := image_index <$> assemble all_images 0 spans in
  StronglySorted le (0 :: cursors)
  ∧ (∀ c text pg, c ≤ (primary_images all_images c text pg).2)
  ∧ (∀ c turns acc, c ≤ (option_images_loop turns all_images c acc).2)
  ∧ Forall (λ c, c ≤ Nat.max (length all_images) (2 * length all_images - 1)) cursors.
Proof.
  cbv zeta. destruct (assemble_cursors all_images 0 spans) as [Hsorted Hall].
  split_and!; [done| | |].
  - intros. apply primary_images_cursor.
  - intros. apply option_images_loop_cursor.
  - apply Hall. lia.
Qed.

(** C3.  No emitted question record has both an ["options"] entry and an
    ["option_images"] entry. *)
Theorem options_exclusive (all_images : list HarvestedImage) (spans : list str) :
  Forall (λ record : gmap string value,
            ¬ (is_Some (record !! "options") ∧ is_Some (record !! "option_images")))
         (questions_data all_images spans).
Proof.
  unfold questions_data. apply Forall_fmap, assemble_Forall.
  intros c q_text it [Hno|Hno]%question_obj_exclusive; cbn; rewrite Hno;
    intros [[? ?] [? ?]]; done.
Qed.


(** C5, as amended.  With no harvested images, the span
    [1. What is 2+2? [A] 3 [B] 4 [C] 5 [D] 6] yields one record: its
    question text is the whole span, option markup included; its
    ["images"] entry is [None]; and its ["options"] entry holds the four
    entries A, B, C, D with texts 3, 4, 5, 6.  The interpreter's tables
    enter through three facts only: 1 is a decimal digit, the period is
    not, and [upper] maps the span to its ASCII upper case. *)
Theorem scenario_record :
  isdecimal (ch "1") = true →
  isdecimal (ch ".") = false →
  upper scenario_span = py "1. WHAT IS 2+2? [A] 3 [B] 4 [C] 5 [D] 6" →
  questions_data [] [scenario_span] =
    [ {[ "question" := VStr scenario_span;
         "images" := VNone;
         "options" := VOptions [ {| label := py "A"; text := py "3" |};
                                 {| label := py "B"; text := py "4" |};
                                 {| label := py "C"; text := py "5" |};
                                 {| label := py "D"; text := py "6" |} ] ]} ].
Proof.
  intros Hone Hdot Hupper. unfold questions_data. cbn [assemble].
  unfold process_question. rewrite Hupper.
  vm_compute in Hone, Hdot. vm_compute.
  rewrite Hone. vm_compute. rewrite Hdot. vm_compute. reflexivity.
Qed.

(** C6, as amended.  Every emitted record has an ["images"] entry: the
    first of the primary-image candidates of its iteration when there is
    one, and [None] otherwise. *)
Theorem images_field_holds_first_candidate (all_images : list HarvestedImage) (spans : list str) :
  Forall (λ it, question_obj it !! "images" = Some (primary_value (question_images it)))
         (assemble all_images 0 spans).
Proof. apply assemble_Forall. intros c q_text it. apply question_obj_images. Qed.

(** C7, as amended.  Cleaning a cleaned text gives that text back exactly
    when the cleaned text holds no match of the answer-key pattern and no
    page marker. *)
Theorem clean_twice_iff_nothing_left (text : str) :
  _clean_question_text (_clean_question_text text) = _clean_question_text text
  ↔ re_search ans_artifact (_clean_question_text text) = None
    ∧ re_search page_tag (_clean_question_text text) = None.
Proof. apply clean_idempotent_iff. Qed.

(** C8, as amended.  An answer key that the left-to-right scan reaches is
    removed whole.  Take an input that reads [pre], then an answer key
    that ends with its closing bracket or is not followed by one, then
    [post].  When no match of the artifact pattern begins at a position of
    the input that lies in [pre], the removal pass deletes exactly the
    answer key there: its result is [pre] followed by its result on
    [post].  When, in addition, no match begins at a position in [pre] of
    the input with the answer key cut out, the cleaned text is that of the
    input with the answer key cut out. *)
Theorem clean_removes_reached_answer_key (pre art post : str) :
  answer_key art →
  last art = Some (ch "]") ∨ head post ≠ Some (ch "]") →
  no_artifact_before (length pre) (pre ++ art ++ post) →
  re_sub_empty ans_artifact (pre ++ art ++ post) = pre ++ re_sub_empty ans_artifact post
  ∧ (no_artifact_before (length pre) (pre ++ post) →
     _clean_question_text (pre ++ art ++ post) = _clean_question_text (pre ++ post)).
Proof.
  intros Hart Hend Hpre. split; [by apply sub_reached_answer_key|].
  intros Hcut. by apply clean_reached_answer_key.
Qed.

(** C9.  When the logo file is absent, [__init__] returns an extractor with
    no fingerprint, and with it the logo filter does nothing:
    [_should_skip_page] answers false on every page, the logo test of the
    harvest answers false on every image, the page loop returns the text
    of all pages with their markers, and the harvest returns every image
    of an accepted format whose file could be written. *)
Theorem missing_logo_is_harmless (fs : Files) :
  vedantu_logo fs = None →
  ∃ self,
    __init__ fs = Ok self
    ∧ vedantu_logo_hash self = None
    ∧ (∀ text image_infos doc, _should_skip_page self text image_infos doc = Ok false)
    ∧ (∀ image_bytes, is_logo self image_bytes = Ok false)
    ∧ (∀ doc,
         collect_text self doc =
           Ok (flat_map (λ p : nat * Page, page_marker p.1 ++ strip (get_text p.2))
                        (enumerate 0 (pages doc)))
         ∧ harvest self fs doc = Ok (harvest_all fs doc)).
Proof.
  intros Hno. exists {| vedantu_logo_hash := None |}.
  unfold __init__, _load_vedantu_logo. rewrite Hno. split_and!; try done.
  - intros. by apply no_logo_skip.
  - intros doc. split; [by apply no_logo_collect|by apply no_logo_harvest].
Qed.

(** C10.  Every entry that [_extract_options] returns has a label among A,
    B, C, D and a non-empty text.  A bracketed label followed only by
    whitespace, up to the end of the span or the next bracket, adds no
    entry, so the list can be shorter than the number of bracketed labels:
    two labels give one entry in [[A] [B] x]. *)
Theorem extracted_options_labelled_and_nonempty (question_text : str) :
  Forall (λ o, label o ∈ [py "A"; py "B"; py "C"; py "D"] ∧ text o ≠ [])
         (_extract_options question_text)
  ∧ (∀ l ws rest,
       in_A_D l = true →
       Forall (λ c, isspace c = true) ws →
       from_option (λ c, not_bracket c = false) True (head rest) →
       _extract_options (py "[" ++ [l] ++ py "]" ++ ws ++ rest) = _extract_options rest)
  ∧ _extract_options (py "[A] [B] x") = [ {| label := py "B"; text := py "x" |} ].
Proof.
  split_and!.
  - apply extract_options_valid.
  - apply extract_options_blank_label.
  - vm_compute. reflexivity.
Qed.
End Claims.


(** ** Examples

    The examples run with the ASCII tables and the stand-in for Pillow. *)

(** C1 fails as stated.  In the two-page document, where the first
    question's span ends with the marker of page 2, the image of page 2
    (position 1 of the harvested list) is both the primary candidate and
    the option image of the first question, and the image of page 1
    (position 0) is attached nowhere. *)
Lemma one_image_in_two_slots :
  let self := {| vedantu_logo_hash := None |} in
  let a := {| page := 1; image := py "output/images/page1_image1.png" |} in
  let b := {| page := 2; image := py "output/images/page2_image1.png" |} in
  harvest (unicode := ascii_unicode) (imaging := plain_imaging)
          self no_logo_files two_page_doc = Ok [a; b]
  ∧ ∃ all_text it1 it2,
      collect_text (imaging := plain_imaging) self two_page_doc = Ok all_text
      ∧ assemble (unicode := ascii_unicode) [a; b] 0
                 (raw_questions (unicode := ascii_unicode) all_text) = [it1; it2]
      ∧ question_images it1 = [image b]
      ∧ option_images it1 = [image b]
      ∧ (image a ∉ question_images it1 ++ option_images it1
                   ++ question_images it2 ++ option_images it2)
      ∧ extract_content (unicode := ascii_unicode) (imaging := plain_imaging)
                        self no_logo_files two_page_doc
        = Ok [question_obj it1; question_obj it2]
      ∧ question_obj it1 !! "images" = Some (VStr (image b))
      ∧ question_obj it1 !! "option_images" = Some (VImages [image b]).
Proof.
  cbv zeta. split; [vm_compute; reflexivity|].
  eexists _, _, _. split; [vm_compute; reflexivity|].
  split; [vm_compute; reflexivity|].
  split; [reflexivity|]. split; [reflexivity|].
  split.
  { vm_compute. intros Hin. repeat (apply elem_of_cons in Hin as [[=]|Hin]).
    by apply elem_of_nil in Hin. }
  split_and!; vm_compute; reflexivity.
Qed.

(** C2 fails as stated.  With six images, all on page 2, the cursor stands
    at 5 after the first question and at 11 after the second, whose span
    holds the marker of page 2: past the length of the list. *)
Lemma cursor_past_the_list :
  let self := {| vedantu_logo_hash := None |} in
  ∃ all_images all_text,
    harvest (unicode := ascii_unicode) (imaging := plain_imaging)
            self no_logo_files six_image_doc = Ok all_images
    ∧ length all_images = 6
    ∧ collect_text (imaging := plain_imaging) self six_image_doc = Ok all_text
    ∧ image_index <$> assemble (unicode := ascii_unicode) all_images 0
                               (raw_questions (unicode := ascii_unicode) all_text)
      = [5; 11].
Proof.
  cbv zeta. eexists _, _. split; [vm_compute; reflexivity|].
  split; [reflexivity|]. split; [vm_compute; reflexivity|].
  vm_compute. reflexivity.
Qed.

(** C5 fails as stated.  The question text of the scenario's record is the
    whole span, not the span with its options stripped. *)
Lemma scenario_question_keeps_options :
  ∃ record,
    questions_data (unicode := ascii_unicode) [] [scenario_span] = [record]
    ∧ record !! "question" = Some (VStr scenario_span)
    ∧ record !! "question" ≠ Some (VStr (py "1. What is 2+2?")).
Proof.
  eexists. split; [vm_compute; reflexivity|].
  split; [vm_compute; reflexivity|]. vm_compute. intros [=].
Qed.

(** C6 fails as stated.  A question with no primary image still has an
    ["images"] entry in its record; the entry holds [None]. *)
Lemma images_field_present_without_image :
  ∃ it,
    assemble (unicode := ascii_unicode) [] 0 [py "1. Q1"] = [it]
    ∧ question_images it = []
    ∧ question_obj it !! "images" = Some VNone.
Proof.
  eexists. split; [vm_compute; reflexivity|].
  split; [reflexivity|]. vm_compute. reflexivity.
Qed.

(** C7 fails as stated.  Removing the page marker brings the pieces of an
    answer key together; cleaning the cleaned text then removes it. *)
Lemma clean_not_idempotent :
  let text := py "Ans ---page1---A" in
  _clean_question_text (unicode := ascii_unicode) text = py "Ans A"
  ∧ _clean_question_text (unicode := ascii_unicode)
      (_clean_question_text (unicode := ascii_unicode) text) = []
  ∧ _clean_question_text (unicode := ascii_unicode)
      (_clean_question_text (unicode := ascii_unicode) text)
    ≠ _clean_question_text (unicode := ascii_unicode) text.
Proof. cbv zeta. split_and!; vm_compute; [reflexivity..|intros [=]]. Qed.


(** C8 fails as stated.  An answer key in round brackets stays, and so
    does one with spaces inside its brackets.  An answer key that an
    earlier match runs into loses its first letter only.  Removing one
    answer key brings the pieces of another together: the cleaned text is
    an answer key, although no match begins before the removed one, and it
    differs from the cleaned text of the input with that answer key cut
    out. *)
Lemma clean_leaves_answer_key :
  _clean_question_text (unicode := ascii_unicode) (py "Ans (B)") = py "Ans (B)"
  ∧ _clean_question_text (unicode := ascii_unicode) (py "Ans. [ B ]") = py "Ans. [ B ]"
  ∧ _clean_question_text (unicode := ascii_unicode) (py "Ans Ans. [B]") = py "ns. [B]"
  ∧ (let text := py "An" ++ py "Ans. [A]" ++ py "s. [B]" in
     _clean_question_text (unicode := ascii_unicode) text = py "Ans. [B]"
     ∧ ans_artifact (_clean_question_text (unicode := ascii_unicode) text) = Some ((), [])
     ∧ no_artifact_before 2 text
     ∧ _clean_question_text (unicode := ascii_unicode) (py "An" ++ py "s. [B]") = []).
Proof.
  cbv zeta. split_and!; try (vm_compute; reflexivity).
  intros i Hi. do 2 (destruct i as [|i]; [reflexivity|]). lia.
Qed.

(** The scenario with the ASCII tables, for which its three facts hold. *)
Lemma scenario_record_witness :
  isdecimal (UnicodeData := ascii_unicode) (ch "1") = true
  ∧ isdecimal (UnicodeData := ascii_unicode) (ch ".") = false
  ∧ upper (UnicodeData := ascii_unicode) scenario_span
      = py "1. WHAT IS 2+2? [A] 3 [B] 4 [C] 5 [D] 6"
  ∧ ∃ record, questions_data (unicode := ascii_unicode) [] [scenario_span] = [record].
Proof.
  split_and!; [reflexivity..|]. eexists.
  apply (scenario_record (unicode := ascii_unicode)); reflexivity.
Defined.

(** A text whose cleaned form holds no artifact and no marker is cleaned
    to a fixed point. *)
Lemma clean_twice_witness :
  let text := py "1. What is 2+2? Ans. [B]" in
  _clean_question_text (unicode := ascii_unicode)
    (_clean_question_text (unicode := ascii_unicode) text)
  = _clean_question_text (unicode := ascii_unicode) text.
Proof.
  cbv zeta.
  apply (proj2 (clean_twice_iff_nothing_left (unicode := ascii_unicode)
                  (py "1. What is 2+2? Ans. [B]"))).
  split; vm_compute; reflexivity.
Defined.

(** An answer key between a question that ends in the letter a and its
    options is removed whole. *)
Lemma reached_answer_key_witness :
  let pre := py "Find the area" in
  let art := py "Ans. [B]" in
  let post := py " [A] 3" in
  answer_key art
  ∧ (last art = Some (ch "]") ∨ head post ≠ Some (ch "]"))
  ∧ no_artifact_before (length pre) (pre ++ art ++ post)
  ∧ no_artifact_before (length pre) (pre ++ post)
  ∧ _clean_question_text (unicode := ascii_unicode) (pre ++ art ++ post)
    = _clean_question_text (unicode := ascii_unicode) (pre ++ post).
Proof.
  cbv zeta.
  assert (answer_key (py "Ans. [B]")) as Hart.
  { apply (answer_key_intro 65 110 115 true [32%N] true 66 true);
      [reflexivity..| |reflexivity]. by repeat constructor. }
  assert (last (py "Ans. [B]") = Some (ch "]") ∨ head (py " [A] 3") ≠ Some (ch "]"))
    as Hend by (left; reflexivity).
  assert (no_artifact_before (length (py "Find the area"))
            (py "Find the area" ++ py "Ans. [B]" ++ py " [A] 3")) as Hpre.
  { intros i Hi. do 13 (destruct i as [|i]; [reflexivity|]). cbn in Hi. lia. }
  assert (no_artifact_before (length (py "Find the area"))
            (py "Find the area" ++ py " [A] 3")) as Hcut.
  { intros i Hi. do 13 (destruct i as [|i]; [reflexivity|]). cbn in Hi. lia. }
  split_and!; [done..|].
  exact (proj2 (clean_removes_reached_answer_key (unicode := ascii_unicode)
                  _ _ _ Hart Hend Hpre) Hcut).
Defined.

(** With no logo file, the harvest of the two-page document rejects
    nothing. *)
Lemma missing_logo_witness :
  vedantu_logo no_logo_files = None
  ∧ ∃ self,
      __init__ (imaging := plain_imaging) no_logo_files = Ok self
      ∧ harvest (unicode := ascii_unicode) (imaging := plain_imaging)
                self no_logo_files two_page_doc
        = Ok (harvest_all (unicode := ascii_unicode) no_logo_files two_page_doc).
Proof.
  split; [reflexivity|].
  destruct (missing_logo_is_harmless (unicode := ascii_unicode)
              (imaging := plain_imaging) no_logo_files eq_refl)
    as (self & Hinit & _ & _ & _ & Hdoc).
  exists self. split; [exact Hinit|]. exact (proj2 (Hdoc two_page_doc)).
Defined.

(** A label followed by a space and the next label adds no entry. *)
Lemma blank_label_witness :
  in_A_D (ch "A") = true
  ∧ Forall (λ c, isspace c = true) (py " ")
  ∧ _extract_options (py "[A] [B] x") = _extract_options (py "[B] x").
Proof.
  split; [reflexivity|]. split; [by repeat constructor|].
  destruct (extracted_options_labelled_and_nonempty []) as (_ & Hblank & _).
  apply (Hblank (ch "A") (py " ") (py "[B] x")); [reflexivity| |reflexivity].
  by repeat constructor.
Defined.


(** * Further lemmas

    Lemmas on the parts of the code that the properties above do not
    reach; the properties themselves and their examples follow. *)

Local Open Scope N_scope.

(** ** Decimal numerals *)

Lemma str_of_nat_digits n : Forall (λ c, in_range 48 57 c = true) (str_of_nat n).
Proof.
  unfold str_of_nat, NilZero.string_of_uint.
  assert (∀ d, Forall (λ c, in_range 48 57 c = true) (py (NilEmpty.string_of_uint d))) as Hd.
  { induction d; cbn [NilEmpty.string_of_uint]; [constructor|..];
      (constructor; [reflexivity|exact IHd]). }
  destruct (Nat.to_uint n); try apply Hd. by repeat constructor.
Qed.

Section Numerals.
Context {unicode : UnicodeData}.
Hypothesis digit_values :
  ∀ c, in_range 48 57 c = true → decimal_value c = N.to_nat (c - 48).

Lemma int_acc_numeral d acc :
  fold_left (λ n c, 10 * n + decimal_value c)%nat (py (NilEmpty.string_of_uint d)) acc
  = Nat.of_uint_acc d acc.
Proof.
  revert acc. induction d; intros acc; cbn [NilEmpty.string_of_uint]; [done|..];
    change (py (String ?a ?s)) with (N_of_ascii a :: py s);
    cbn [fold_left Nat.of_uint_acc]; rewrite digit_values by reflexivity;
    rewrite IHd, Nat.tail_mul_spec; f_equal; cbn; lia.
Qed.

Lemma int_str_of_nat n : int (str_of_nat n) = n.
Proof.
  unfold int, str_of_nat, NilZero.string_of_uint.
  rewrite <- (Unsigned.of_to n) at 2. unfold Nat.of_uint.
  destruct (Nat.to_uint n) eqn:Hd; try (rewrite <- int_acc_numeral; reflexivity).
  cbn. rewrite digit_values by reflexivity. reflexivity.
Qed.
End Numerals.

Lemma str_of_nat_inj a b : str_of_nat a = str_of_nat b → a = b.
Proof.
  intros Heq.
  rewrite <- (int_str_of_nat (unicode := ascii_unicode) (λ _ _, eq_refl) a).
  rewrite <- (int_str_of_nat (unicode := ascii_unicode) (λ _ _, eq_refl) b).
  by rewrite Heq.
Qed.

(** Two texts that begin with a run of digits closed by a character that is
    no digit agree on the run and on the rest. *)
Lemma digit_run_unique (p : char → bool) d1 d2 c1 c2 x y :
  Forall (λ c, p c = true) d1 → Forall (λ c, p c = true) d2 →
  p c1 = false → p c2 = false →
  d1 ++ c1 :: x = d2 ++ c2 :: y → d1 = d2 ∧ c1 :: x = c2 :: y.
Proof.
  intros H1. revert d2. induction H1 as [|a d1 Ha _ IH]; intros d2 H2 Hc1 Hc2 Heq.
  - destruct H2 as [|b d2 Hb _]; [done|]. cbn in Heq. congruence.
  - destruct H2 as [|b d2 Hb H2]; cbn in Heq; [congruence|].
    injection Heq as -> Heq. destruct (IH d2 H2 Hc1 Hc2 Heq) as [-> ?]. done.
Qed.

Lemma image_path_inj n i e n' i' e' :
  image_path n i e = image_path n' i' e' → n = n' ∧ i = i' ∧ e = e'.
Proof.
  unfold image_path. cbv zeta. unfold IMAGE_DIR.
  intros Heq.
  repeat (apply app_inv_head in Heq).
  change (py "_image" ++ ?r) with (ch "_" :: (py "image" ++ r)) in Heq.
  apply (digit_run_unique (in_range 48 57)) in Heq as [Hn Heq];
    [|apply str_of_nat_digits..|reflexivity|reflexivity].
  apply str_of_nat_inj in Hn.
  injection Heq as Heq. repeat (apply app_inv_head in Heq).
  change (py "." ++ ?r) with (ch "." :: r) in Heq.
  apply (digit_run_unique (in_range 48 57)) in Heq as [Hi Heq];
    [|apply str_of_nat_digits..|reflexivity|reflexivity].
  apply str_of_nat_inj in Hi. injection Heq as Heq.
  split_and!; [lia|done|done].
Qed.

Local Close Scope N_scope.

(** ** The harvest *)


Lemma for_each_sublist {A B} (body : list B → A → result (list B)) (f : A → list B) l s s' :
  (∀ s x s', x ∈ l → body s x = Ok s' → ∃ k, s' = s ++ k ∧ k `sublist_of` f x) →
  for_each body l s = Ok s' →
  ∃ k, s' = s ++ k ∧ k `sublist_of` flat_map f l.
Proof.
  revert s. induction l as [|x l IH]; intros s Hbody; cbn [for_each flat_map].
  - intros [= <-]. exists []. by rewrite app_nil_r.
  - destruct (body s x) as [s1|] eqn:Hx; [|done]. cbn [mbind result_bind].
    destruct (Hbody s x s1) as (k1 & -> & Hk1); [set_solver|done|].
    intros (k2 & -> & Hk2)%IH; [|intros; eapply Hbody; [set_solver|done]].
    exists (k1 ++ k2). split; [by rewrite app_assoc|by apply sublist_app].
Qed.

Lemma StronglySorted_sublist {A} (R : relation A) l1 l2 :
  l1 `sublist_of` l2 → StronglySorted R l2 → StronglySorted R l1.
Proof.
  induction 1 as [|x l1 l2 Hsub IH|x l1 l2 Hsub IH]; [done|..].
  - intros [Hs Hx]%StronglySorted_inv. constructor; [by apply IH|].
    rewrite Forall_forall in *. intros y Hy. apply Hx.
    by eapply sublist_subseteq.
  - intros [Hs _]%StronglySorted_inv. by apply IH.
Qed.

Section Harvest.
Context {unicode : UnicodeData} {imaging : Imaging}.

Lemma harvest_all_entries fs doc :
  harvest_all fs doc =
    flat_map (λ p : nat * Page,
                omap (unfiltered_entry fs doc p.1) (enumerate 1 (get_images p.2)))
             (enumerate 0 (pages doc)).
Proof. reflexivity. Qed.

Lemma harvest_image_sublist self fs doc n acc img acc' :
  harvest_image self fs doc n acc img = Ok acc' →
  ∃ k, acc' = acc ++ k ∧ k `sublist_of` option_list (unfiltered_entry fs doc n img).
Proof.
  destruct img as [i xref]. unfold harvest_image, unfiltered_entry, _save_image.
  cbn [fst snd]. cbv zeta.
  destruct (bool_decide _); cbn [andb];
    [|intros [= <-]; exists []; split; [by rewrite app_nil_r|apply sublist_nil_l]].
  destruct (is_logo self _) as [[|]|]; cbn [mbind result_bind]; [| |done].
  - intros [= <-]. exists []. split; [by rewrite app_nil_r|apply sublist_nil_l].
  - destruct (writable fs _); intros [= <-].
    + eexists. split; [done|]. done.
    + exists []. split; [by rewrite app_nil_r|apply sublist_nil_l].
Qed.

(** Whatever the logo filter rejects, what the harvest returns is part of
    the harvest without the filter, in the same order. *)
Lemma harvest_sublist self fs doc all_images :
  harvest self fs doc = Ok all_images →
  all_images `sublist_of` harvest_all fs doc.
Proof.
  unfold harvest. intros Hh.
  apply (for_each_sublist _
           (λ p : nat * Page,
              omap (unfiltered_entry fs doc p.1) (enumerate 1 (get_images p.2))))
    in Hh as (k & -> & Hk); [done|].
  intros s [n page] s' _ Hp. unfold harvest_page in Hp.
  apply (for_each_sublist _ (λ img, option_list (unfiltered_entry fs doc n img)))
    in Hp as (k & -> & Hk).
  - exists k. split; [done|]. by rewrite flat_map_option_list in Hk.
  - intros s1 img s1' _. apply harvest_image_sublist.
Qed.
End Harvest.

Section HarvestAll.
Context {unicode : UnicodeData}.

Lemma page_entries fs doc n start infos :
  let l := omap (unfiltered_entry fs doc n) (enumerate start infos) in
  Forall (λ h, page h = n + 1
               ∧ ∃ i e, start ≤ i < start + length infos
                        ∧ e ∈ VALID_IMAGE_EXTS ∧ image h = image_path n i e) l
  ∧ NoDup (image <$> l)
  ∧ length l ≤ length infos.
Proof.
  cbv zeta. revert start. induction infos as [|xref infos IH]; intros start;
    cbn [enumerate omap list_omap].
  - split_and!; [constructor|constructor|done].
  - destruct (IH (S start)) as (Hall & Hnd & Hlen).
    assert (Forall (λ h, page h = n + 1
               ∧ ∃ i e, start ≤ i < start + length (xref :: infos)
                        ∧ e ∈ VALID_IMAGE_EXTS ∧ image h = image_path n i e)
              (omap (unfiltered_entry fs doc n) (enumerate (S start) infos))) as Hall'.
    { eapply Forall_impl; [exact Hall|]. cbn [length].
      intros h (? & i & e & ? & ? & ?). split; [done|]. exists i, e.
      split_and!; [lia..|done|done]. }
    destruct (unfiltered_entry fs doc n (start, xref)) as [h|] eqn:Hentry;
      [|split_and!; [exact Hall'|exact Hnd|cbn [length]; lia]].
    assert (page h = n + 1
            ∧ ∃ e, e ∈ VALID_IMAGE_EXTS ∧ image h = image_path n start e)
      as (Hpage & e & He & Himage).
    { unfold unfiltered_entry in Hentry. cbn [fst snd] in Hentry.
      destruct (bool_decide_reflect
                  (lower (ext (extract_image doc xref)) ∈ VALID_IMAGE_EXTS))
        as [He|He]; cbn [andb] in Hentry; [|done].
      destruct (writable fs _); [|done]. injection Hentry as <-. cbn. eauto. }
    split_and!.
    + constructor; [|exact Hall']. split; [done|].
      exists start, e. split_and!; [lia|cbn [length]; lia|done|done].
    + cbn [fmap list_fmap]. constructor; [|done].
      intros (h' & Hh & Hin)%list_elem_of_fmap.
      rewrite Forall_forall in Hall.
      destruct (Hall h' Hin) as (_ & i & e' & Hi & _ & Himg).
      rewrite Himage, Himg in Hh. apply image_path_inj in Hh as (_ & -> & _). lia.
    + cbn [length]. lia.
Qed.

Lemma document_entries fs doc start ps :
  let l := flat_map (λ p : nat * Page,
                       omap (unfiltered_entry fs doc p.1) (enumerate 1 (get_images p.2)))
                    (enumerate start ps) in
  Forall (λ h, ∃ n pg i e,
                 start ≤ n ∧ ps !! (n - start) = Some pg
                 ∧ page h = n + 1
                 ∧ 1 ≤ i ≤ length (get_images pg)
                 ∧ e ∈ VALID_IMAGE_EXTS ∧ image h = image_path n i e) l
  ∧ NoDup (image <$> l)
  ∧ StronglySorted le (page <$> l)
  ∧ length l ≤ length (flat_map get_images ps).
Proof.
  cbv zeta. revert start. induction ps as [|pg ps IH]; intros start;
    cbn [enumerate flat_map].
  - split_and!; [constructor|constructor|constructor|done].
  - destruct (IH (S start)) as (Hall & Hnd & Hsorted & Hlen).
    destruct (page_entries fs doc start 1 (get_images pg)) as (Hpg & Hpnd & Hplen).
    cbn [fst snd]. rewrite Forall_forall in Hall, Hpg.
    split_and!.
    + apply Forall_app. split; apply Forall_forall.
      * intros h (Hp & i & e & Hi & He & Himg)%Hpg.
        exists start, pg, i, e. rewrite Nat.sub_diag. split_and!; [lia|done|done|lia..|done|done].
      * intros h (n & pg' & i & e & Hn & Hl & ?)%Hall.
        exists n, pg', i, e. split; [lia|]. split; [|done].
        replace (n - start) with (S (n - S start)) by lia. done.
    + rewrite fmap_app. apply NoDup_app. split_and!; [done| |done].
      intros x (h & -> & Hh)%list_elem_of_fmap (h' & Heq & Hh')%list_elem_of_fmap.
      destruct (Hpg h Hh) as (_ & i & e & _ & _ & Himg).
      destruct (Hall h' Hh') as (n & _ & i' & e' & Hn & _ & _ & _ & _ & Himg').
      rewrite Himg, Himg' in Heq. apply image_path_inj in Heq as (-> & _). lia.
    + rewrite fmap_app. apply StronglySorted_app; split_and!; [| |done].
      * intros x y (h & -> & Hh)%list_elem_of_fmap (h' & -> & Hh')%list_elem_of_fmap.
        destruct (Hpg h Hh) as (-> & _).
        destruct (Hall h' Hh') as (n & _ & _ & _ & Hn & _ & -> & _). lia.
      * clear -Hpg. induction (omap _ _) as [|h l IHl]; [constructor|].
        cbn [fmap list_fmap]. constructor.
        -- apply IHl. intros h' Hh'. apply Hpg. by constructor.
        -- apply Forall_forall. intros x (h' & -> & Hh')%list_elem_of_fmap.
           destruct (Hpg h) as [-> _]; [by constructor|].
           destruct (Hpg h') as [-> _]; [by constructor|]. done.
    + rewrite !length_app. lia.
Qed.
End HarvestAll.

Lemma enumerate_lookup {A} (l : list A) start n x :
  (n, x) ∈ enumerate start l ↔ start ≤ n ∧ l !! (n - start) = Some x.
Proof.
  revert start. induction l as [|y l IH]; intros start; cbn [enumerate].
  - split; [by intros ?%elem_of_nil|by intros [_ ?]].
  - rewrite elem_of_cons, IH. split.
    + intros [[= -> ->]|[Hle Hl]].
      * rewrite Nat.sub_diag. split; [lia|done].
      * split; [lia|]. replace (n - start) with (S (n - S start)) by lia. done.
    + intros [Hle Hl]. destruct (decide (n = start)) as [->|Hne].
      * rewrite Nat.sub_diag in Hl. left. cbn in Hl. congruence.
      * right. split; [lia|].
        replace (n - start) with (S (n - S start)) in Hl by lia. done.
Qed.

Lemma for_each_Forall {A B} (body : list B → A → result (list B))
    (P : A → B → Prop) l s s' :
  (∀ s x s', x ∈ l → body s x = Ok s' → ∃ k, s' = s ++ k ∧ Forall (P x) k) →
  for_each body l s = Ok s' →
  ∃ k, s' = s ++ k ∧ Forall (λ b, ∃ x, x ∈ l ∧ P x b) k.
Proof.
  revert s. induction l as [|x l IH]; intros s Hbody; cbn [for_each].
  - intros [= <-]. exists []. by rewrite app_nil_r.
  - destruct (body s x) as [s1|] eqn:Hx; [|done]. cbn [mbind result_bind].
    destruct (Hbody s x s1) as (k1 & -> & Hk1); [by constructor|done|].
    intros (k2 & -> & Hk2)%IH;
      [|intros ? ? ? ?; eapply Hbody; by constructor].
    exists (k1 ++ k2). split; [by rewrite app_assoc|]. apply Forall_app. split.
    + eapply Forall_impl; [exact Hk1|]. intros b Hb. exists x. split; [by constructor|done].
    + eapply Forall_impl; [exact Hk2|]. intros b (y & Hy & Hb). exists y.
      split; [by constructor|done].
Qed.

Section HarvestPages.
Context {unicode : UnicodeData} {imaging : Imaging}.

Lemma harvest_page_logo_only self fs doc acc n pg acc' :
  logo_only self doc pg →
  harvest_page self fs doc acc (n, pg) = Ok acc' → acc' = acc.
Proof.
  intros (_ & Hone & logo & Hlogo & xref & Hhead & Hhash).
  unfold harvest_page. destruct (get_images pg) as [|x [|? ?]]; [done| |done].
  cbn in Hhead. injection Hhead as ->.
  cbn [enumerate for_each]. unfold harvest_image, is_logo.
  rewrite Hlogo, Hhash. cbn [mbind result_bind].
  rewrite (bool_decide_eq_true_2 (logo = logo)) by done.
  destruct (bool_decide _); cbn [mbind result_bind]; by intros [= <-].
Qed.

Lemma harvest_page_pages self fs doc acc n pg acc' :
  harvest_page self fs doc acc (n, pg) = Ok acc' →
  ∃ k, acc' = acc ++ k ∧ Forall (λ h, page h = n + 1 ∧ ¬ logo_only self doc pg) k.
Proof.
  intros Hp. destruct (decide (logo_only self doc pg)) as [Hlogo|Hno].
  - apply harvest_page_logo_only in Hp as ->; [|done].
    exists []. by rewrite app_nil_r.
  - unfold harvest_page in Hp.
    apply (for_each_Forall _ (λ _ h, page h = n + 1)) in Hp as (k & -> & Hk).
    + exists k. split; [done|]. eapply Forall_impl; [exact Hk|].
      intros h (_ & _ & ?). done.
    + intros s [i xref] s' _ Hi. apply harvest_image_sublist in Hi as (k & -> & Hk).
      exists k. split; [done|]. unfold unfiltered_entry in Hk.
      destruct (_ && _).
      * cbn in Hk. apply sublist_cons_r in Hk as [Hk|(k' & -> & Hk)].
        -- apply sublist_nil_r in Hk as ->. constructor.
        -- apply sublist_nil_r in Hk as ->. by repeat constructor.
      * apply sublist_nil_r in Hk as ->. constructor.
Qed.
End HarvestPages.

(** ** The records *)


Section Records.
Context {unicode : UnicodeData}.

Lemma process_question_survives all_images c q_text :
  match process_question all_images c q_text with
  | Some it =>
      survives q_text = true
      ∧ clean_text it = _clean_question_text q_text
      ∧ current_page it = int <$> re_search page_tag q_text
  | None => survives q_text = false
  end.
Proof.
  unfold process_question, survives.
  destruct (startswith _ _ || contains _ _); [done|].
  destruct (re_match question_num q_text); [|done].
  destruct (primary_images _ _ _ _) as [qi c1].
  destruct (option_images_loop _ _ _ _) as [oi c2]. done.
Qed.

Lemma question_obj_question all_images c q_text it :
  process_question all_images c q_text = Some it →
  question_obj it !! "question" = Some (VStr (clean_text it)).
Proof.
  intros (c1 & _ & _ & ->)%process_question_inv. cbv zeta.
  destruct (option_images it); [destruct (_extract_options q_text)|];
    by simplify_map_eq.
Qed.
End Records.

Section Attached.
Context {unicode : UnicodeData}.

Lemma primary_images_harvested all_images c text pg :
  (primary_images all_images c text pg).1 ⊆ image <$> all_images.
Proof.
  unfold primary_images. destruct (bool_decide _); [|cbn; set_solver].
  destruct (_ || _).
  - destruct (filter _ all_images) as [|x l] eqn:Hf; [cbn; set_solver|].
    cbn [fst]. rewrite <- Hf. intros y (h & -> & Hh%list_elem_of_filter)%list_elem_of_fmap.
    apply list_elem_of_fmap. exists h. by destruct Hh.
  - destruct (all_images !! c) as [img|] eqn:Himg; [|cbn; set_solver].
    cbn [fst]. intros y ->%list_elem_of_singleton.
    apply list_elem_of_fmap. exists img. split; [done|]. by eapply list_elem_of_lookup_2.
Qed.

Lemma process_question_attached all_images c q_text it :
  process_question all_images c q_text = Some it →
  question_images it ⊆ image <$> all_images
  ∧ option_images it ⊆ image <$> all_images
  ∧ length (option_images it) ≤ 4.
Proof.
  intros (c1 & Hp & Ho & _)%process_question_inv.
  rewrite option_images_loop_spec in Ho. cbv zeta in Ho.
  injection Ho as Hoi _. cbn [app] in Hoi. split_and!.
  - pose proof (primary_images_harvested all_images c (clean_text it) (current_page it)) as Hs.
    by rewrite Hp in Hs.
  - rewrite <- Hoi. intros y (h & -> & Hh)%list_elem_of_fmap.
    apply list_elem_of_fmap. exists h. split; [done|].
    eapply (sublist_subseteq (drop c1 all_images)); [apply sublist_drop|].
    eapply sublist_subseteq; [apply sublist_take|done].
  - rewrite <- Hoi, length_fmap, length_take. lia.
Qed.

Lemma question_obj_optional all_images c q_text it :
  process_question all_images c q_text = Some it →
  question_obj it !! "option_images"
    = match option_images it with [] => None | l => Some (VImages l) end
  ∧ question_obj it !! "options"
    = match option_images it, _extract_options q_text with
      | [], (_ :: _) as l => Some (VOptions l)
      | _, _ => None
      end
  ∧ dom (question_obj it) ⊆ ({["question"; "images"; "option_images"; "options"]} : gset string).
Proof.
  intros (c1 & _ & _ & ->)%process_question_inv. cbv zeta.
  destruct (option_images it); [destruct (_extract_options q_text)|];
    (split_and!;
       [by rewrite ?lookup_insert_ne, ?lookup_insert_eq, ?lookup_singleton_ne by done..|]);
    rewrite ?dom_insert_L, ?dom_singleton_L; intros x;
    rewrite !elem_of_union, !elem_of_singleton; tauto.
Qed.

Lemma process_question_exhausted all_images c q_text it :
  length all_images ≤ c →
  process_question all_images c q_text = Some it →
  question_images it = [] ∧ option_images it = [] ∧ image_index it = c.
Proof.
  intros Hc (c1 & Hp & Ho & _)%process_question_inv.
  apply primary_images_cases in Hp as
    [(_ & img & Himg%lookup_lt_Some & _)|[(_ & ? & _)|(_ & -> & ->)]]; [lia..|].
  rewrite option_images_loop_spec in Ho. cbv zeta in Ho.
  rewrite drop_ge in Ho by lia. rewrite take_nil in Ho. cbn in Ho.
  injection Ho as <- <-. split_and!; [done..|lia].
Qed.

Lemma primary_images_no_page all_images c text :
  primary_images all_images c text None =
    if bool_decide (c < length all_images) && negb (_is_question_with_image text)
    then match all_images !! c with
         | Some img => ([image img], c + 1)
         | None => ([], c)
         end
    else ([], c).
Proof.
  unfold primary_images. destruct (bool_decide _); [|done]. cbn [andb truthy].
  rewrite orb_false_r. destruct (_is_question_with_image text); [|done]. cbn [negb].
  cbv zeta. destruct (filter _ all_images) as [|x l] eqn:Hf; [done|].
  assert (x ∈ x :: l) as Hx by constructor.
  rewrite <- Hf in Hx. by apply list_elem_of_filter in Hx as [? _].
Qed.
End Attached.

(** ** The split into questions *)

Section Segments.
Context {unicode : UnicodeData}.

Lemma split_questions_concat at_start cur s :
  concat (split_questions at_start cur s) = cur ++ s.
Proof.
  revert at_start cur. induction s as [|c s IH]; intros at_start cur;
    cbn [split_questions].
  - cbn. by rewrite !app_nil_r.
  - destruct (question_pattern at_start (c :: s)); cbn [concat]; rewrite IH.
    + done.
    + by rewrite <- app_assoc.
Qed.

Lemma question_start_num s :
  is_Some (re_match question_start s) →
  ∃ c s', s = c :: s' ∧ isdecimal c = true ∧ is_Some (re_match question_num s).
Proof.
  unfold re_match, question_start, question_num, digits.
  destruct s as [|c s']; [by intros [? [=]]|]. cbn [run].
  destruct (isdecimal c) eqn:Hc; [|by intros [? [=]]].
  intros Hm. exists c, s'. split; [done|]. split; [done|].
  cbn [mbind option_bind] in *.
  destruct (one (is_char (ch ".")) _); [|by destruct Hm as [? [=]]].
  done.
Qed.

Lemma raw_questions_start all_text q :
  q ∈ raw_questions all_text →
  ∃ c s', q = c :: s' ∧ isdecimal c = true ∧ is_Some (re_match question_num q).
Proof.
  unfold raw_questions. intros (p & _ & Hq)%list_elem_of_omap.
  destruct (bool_decide_reflect (is_Some (re_match question_start (strip p))))
    as [Hm|]; [|done].
  injection Hq as <-. by apply question_start_num.
Qed.
End Segments.

Local Open Scope N_scope.

Lemma run_app_all p ws s :
  Forall (λ c, p c = true) ws → run p (ws ++ s) = ws ++ run p s.
Proof. induction 1 as [|c ws Hc _ IH]; [done|]. cbn. by rewrite Hc, IH. Qed.






Section Marker.
Context {unicode : UnicodeData}.
Hypothesis digits_decimal : ∀ c, in_range 48 57 c = true → isdecimal c = true.
Hypothesis dash_not_decimal : isdecimal (ch "-") = false.


End Marker.

(** ** Options: written out and read back *)

Lemma re_split_go_no_start {G} (p : pattern G) cur pre s :
  (∀ i, (i < length pre)%nat → p (drop i pre ++ s) = None) →
  re_split_go p 0 cur (pre ++ s) = re_split_go p 0 (cur ++ pre) s.
Proof.
  revert cur. induction pre as [|c pre IH]; intros cur Hpre.
  - by rewrite app_nil_r.
  - cbn [app re_split_go]. unfold match_length.
    change (c :: pre ++ s) with (drop 0 (c :: pre) ++ s).
    rewrite Hpre by (cbn [length]; lia). cbn [fmap option_fmap option_map drop].
    rewrite IH; [by rewrite <- app_assoc|].
    intros i Hi. apply (Hpre (S i)). cbn [length]. lia.
Qed.

Lemma re_split_go_at_match {G} (p : pattern G) g cur m s :
  m ≠ [] → p (m ++ s) = Some (g, s) →
  re_split_go p 0 cur (m ++ s) = cur :: m :: re_split p s.
Proof.
  intros Hm Hp. unfold re_split. destruct m as [|c m]; [done|].
  cbn [app re_split_go]. unfold match_length.
  change (c :: m ++ s) with ((c :: m) ++ s). rewrite Hp.
  cbn [fmap option_fmap option_map snd].
  rewrite length_app.
  replace (length (c :: m) + length s - length s)%nat with (S (length m))
    by (cbn [length]; lia).
  rewrite re_split_go_skip, drop_app_length.
  replace (S (length m)) with (length (c :: m)) by done.
  by rewrite take_app_length.
Qed.

Lemma many_Forall (P : char → Prop) p s : Forall P s → Forall P (many p s).
Proof.
  induction 1 as [|c s Hc Hs IH]; [done|]. cbn. destruct (p c); [done|].
  by constructor.
Qed.

Lemma strip_Forall (P : char → Prop) s : Forall P s → Forall P (strip s).
Proof.
  intros Hs. unfold strip, rstrip, lstrip.
  apply Forall_rev, many_Forall, Forall_rev, many_Forall, Hs.
Qed.

Lemma option_part_needs_bracket s :
  from_option (λ c, is_char (ch "[") c = false) True (head s) → option_part s = None.
Proof. destruct s as [|c s]; [done|]. unfold option_part. cbn. by intros ->. Qed.

Lemma option_of_part_no_bracket part :
  Forall (λ c, not_bracket c = true) part → option_of_part part = None.
Proof.
  intros Hp%strip_Forall. unfold option_of_part.
  destruct (strip part) as [|c r]; [done|].
  apply Forall_cons in Hp as [Hc _]. unfold re_match, option_entry. cbn [one].
  unfold not_bracket in Hc. apply negb_true_iff, orb_false_iff in Hc as [-> _].
  done.
Qed.

Lemma plain_option_parts o :
  plain_option o →
  ∃ l c t c' t',
    o = {| label := [l]; text := c :: t |}
    ∧ in_A_D l = true
    ∧ c :: t = t' ++ [c']
    ∧ isspace c = false ∧ isspace c' = false
    ∧ Forall (λ c, not_bracket c = true) (c :: t)
    ∧ Forall (λ c, not_newline c = true) (c :: t).
Proof.
  destruct o as [lbl txt]. intros (Hl & Hall & Hhead & Hlast). cbn in *.
  destruct txt as [|c t]; [done|]. cbn in Hhead.
  destruct (last (c :: t)) as [c'|] eqn:Hc'; [|done]. cbn in Hlast.
  apply last_Some in Hc' as [t' Ht'].
  assert (∃ l, lbl = [l] ∧ in_A_D l = true) as (l & -> & Hin).
  { repeat (apply elem_of_cons in Hl as [->|Hl]; [eexists; split; reflexivity|]).
    by apply elem_of_nil in Hl. }
  exists l, c, t, c', t'. split_and!; try done.
  - eapply Forall_impl; [exact Hall|]. by intros ? [? ?].
  - eapply Forall_impl; [exact Hall|]. by intros ? [? ?].
Qed.

Lemma option_part_markup o ws rest :
  plain_option o →
  Forall (λ c, isspace c = true) ws →
  from_option (λ c, not_bracket c = false) True (head rest) →
  option_part ((option_markup o ++ ws) ++ rest) = Some ((), rest).
Proof.
  intros (l & c & t & c' & t' & -> & Hl & _ & _ & _ & Hnb & _)%plain_option_parts
    Hws Hrest.
  unfold option_markup, option_part. cbn [label text].
  change (((py "[" ++ [l] ++ py "] " ++ c :: t) ++ ws) ++ rest)
    with (ch "[" :: l :: ch "]" :: ([ch " "] ++ (c :: t) ++ ws) ++ rest).
  cbn [one]. rewrite is_char_refl. cbn [mbind option_bind one]. rewrite Hl.
  cbn [mbind option_bind one]. rewrite is_char_refl. cbn [mbind option_bind].
  rewrite many_app_all, many_stop; [done|done|].
  apply Forall_app. split; [by repeat constructor|].
  apply Forall_app. split; [done|].
  eapply Forall_impl; [exact Hws|]. apply isspace_not_bracket.
Qed.

Lemma option_of_part_markup o ws :
  plain_option o →
  Forall (λ c, isspace c = true) ws →
  option_of_part (option_markup o ++ ws) = Some o.
Proof.
  intros (l & c & t & c' & t' & -> & Hl & Hlast & Hc & Hc' & _ & Hnl)%plain_option_parts
    Hws.
  unfold option_markup, option_of_part. cbn [label text].
  change ((py "[" ++ [l] ++ py "] " ++ c :: t) ++ ws)
    with (ch "[" :: ([l; ch "]"; ch " "] ++ c :: t) ++ ws).
  unfold strip at 1. rewrite lstrip_cons by done.
  change (ch "[" :: ([l; ch "]"; ch " "] ++ c :: t) ++ ws)
    with (([ch "["; l; ch "]"; ch " "] ++ c :: t) ++ ws).
  rewrite rstrip_app_spaces by done.
  rewrite Hlast, app_assoc, rstrip_snoc by done.
  rewrite <- app_assoc, <- Hlast. cbn [app].
  unfold re_match, option_entry. cbn [one]. rewrite is_char_refl.
  cbn [mbind option_bind]. rewrite Hl. cbn [one]. rewrite is_char_refl.
  cbn [mbind option_bind fmap option_fmap option_map fst].
  change (ch " " :: c :: t) with ([ch " "] ++ c :: t).
  rewrite <- (app_nil_r ([ch " "] ++ c :: t)) at 1.
  rewrite run_app_all.
  2:{ apply Forall_app. split; [by repeat constructor|done]. }
  cbn [run]. rewrite app_nil_r.
  assert (strip ([ch " "] ++ c :: t) = c :: t) as ->; [|done].
  unfold strip. change (lstrip ([ch " "] ++ c :: t)) with (lstrip (c :: t)).
  rewrite lstrip_cons by done. rewrite Hlast. by apply rstrip_snoc.
Qed.

Lemma join_markup_head o opts :
  from_option (λ c, not_bracket c = false) True
    (head (join (py " ") (option_markup <$> o :: opts))).
Proof. by destruct opts. Qed.

Lemma omap_split_markup cur opts :
  Forall (λ c, not_bracket c = true) cur →
  Forall plain_option opts →
  omap option_of_part
       (re_split_go option_part 0 cur (join (py " ") (option_markup <$> opts)))
  = opts.
Proof.
  intros Hcur Hopts. revert cur Hcur.
  induction Hopts as [|o opts Ho Hopts IH]; intros cur Hcur.
  - cbn. by rewrite option_of_part_no_bracket.
  - destruct opts as [|o' opts].
    + cbn [fmap list_fmap join].
      rewrite <- (app_nil_r (option_markup o)).
      rewrite (re_split_go_at_match _ () cur).
      * cbn [omap list_omap]. rewrite option_of_part_no_bracket by done.
        pose proof (option_of_part_markup o [] Ho (Forall_nil_2 _)) as Hpart.
        rewrite app_nil_r in Hpart. rewrite Hpart.
        reflexivity.
      * destruct o. done.
      * rewrite <- (app_nil_r (option_markup o)) at 1.
        by apply (option_part_markup o [] []).
    + change (join (py " ") (option_markup <$> o :: o' :: opts))
        with (option_markup o ++ py " " ++ join (py " ") (option_markup <$> o' :: opts)).
      rewrite app_assoc.
      rewrite (re_split_go_at_match _ () cur).
      * cbn [omap list_omap]. rewrite option_of_part_no_bracket by done.
        rewrite (option_of_part_markup o (py " ")) by (done || by repeat constructor).
        f_equal. by apply IH.
      * destruct o. done.
      * apply option_part_markup; [done|by repeat constructor|].
        apply join_markup_head.
Qed.

Local Close Scope N_scope.

(** ** What raises *)

Lemma for_each_raise {A S} (body : S → A → result S) l s :
  for_each body l s = Raise → ∃ x s', x ∈ l ∧ body s' x = Raise.
Proof.
  revert s. induction l as [|x l IH]; intros s; cbn [for_each]; [done|].
  destruct (body s x) as [s1|] eqn:Hx; cbn [mbind result_bind].
  - intros (y & s' & Hy & Hr)%IH. exists y, s'. split; [by constructor|done].
  - intros _. exists x, s. split; [by constructor|done].
Qed.

Section Errors.
Context {unicode : UnicodeData} {imaging : Imaging}.

Lemma get_image_hash_raise image_data :
  _get_image_hash image_data = Raise ↔ rgb_pixels image_data = None.
Proof. unfold _get_image_hash. by destruct (rgb_pixels image_data). Qed.

Lemma harvest_image_raise self fs doc n acc i xref :
  harvest_image self fs doc n acc (i, xref) = Raise →
  is_Some (vedantu_logo_hash self)
  ∧ rgb_pixels (image_bytes (extract_image doc xref)) = None.
Proof.
  unfold harvest_image, is_logo. destruct (bool_decide _); [|done].
  destruct (vedantu_logo_hash self) as [logo|]; cbn [mbind result_bind].
  - destruct (_get_image_hash _) as [h|] eqn:Hh; cbn [mbind result_bind].
    + destruct (bool_decide _); [done|]. by destruct (_save_image _ _ _).
    + intros _. split; [done|]. by apply get_image_hash_raise.
  - by destruct (_save_image _ _ _).
Qed.

Lemma harvest_raise self fs doc :
  harvest self fs doc = Raise →
  is_Some (vedantu_logo_hash self)
  ∧ ∃ pg xref, pg ∈ pages doc ∧ xref ∈ get_images pg
      ∧ rgb_pixels (image_bytes (extract_image doc xref)) = None.
Proof.
  unfold harvest. intros ([n pg] & acc & Hpg%enumerate_elem & Hr)%for_each_raise.
  unfold harvest_page in Hr.
  apply for_each_raise in Hr as ([i xref] & acc' & Hx%enumerate_elem & Hr).
  apply harvest_image_raise in Hr as [Hlogo Hr]. split; [done|].
  by exists pg, xref.
Qed.

Lemma logo_check_raises_undecodable self doc pg :
  logo_check_raises self doc pg →
  is_Some (vedantu_logo_hash self)
  ∧ ∃ xref, xref ∈ get_images pg
      ∧ rgb_pixels (image_bytes (extract_image doc xref)) = None.
Proof.
  intros (_ & Hlogo & xref & Hx & Hr%get_image_hash_raise). split; [done|].
  exists xref. split; [|done]. rewrite Hx. by constructor.
Qed.

Lemma extract_content_cases self fs doc :
  match extract_content self fs doc with
  | Ok data =>
      ∃ all_images,
        harvest self fs doc = Ok all_images
        ∧ data = questions_data all_images (raw_questions (text_blob self doc))
  | Raise =>
      is_Some (vedantu_logo_hash self)
      ∧ ∃ pg xref, pg ∈ pages doc ∧ xref ∈ get_images pg
          ∧ rgb_pixels (image_bytes (extract_image doc xref)) = None
  end.
Proof.
  unfold extract_content.
  destruct (harvest self fs doc) as [all_images|] eqn:Hh; cbn [mbind result_bind].
  - pose proof (collect_text_blob self doc) as Hc.
    destruct (collect_text self doc) as [all_text|]; cbn [mbind result_bind].
    + subst all_text. by exists all_images.
    + destruct Hc as (pg & Hpg & (Hlogo & xref & Hx & Hr)%logo_check_raises_undecodable).
      split; [done|]. by exists pg, xref.
  - by apply (harvest_raise self fs doc).
Qed.

Lemma init_cases fs :
  match vedantu_logo fs with
  | None => __init__ fs = Ok {| vedantu_logo_hash := None |}
  | Some logo_bytes =>
      match rgb_pixels logo_bytes with
      | Some img => __init__ fs = Ok {| vedantu_logo_hash := Some (md5_hexdigest img) |}
      | None => __init__ fs = Raise
      end
  end.
Proof.
  unfold __init__, _load_vedantu_logo, _get_image_hash.
  destruct (vedantu_logo fs) as [b|]; [|done]. by destruct (rgb_pixels b).
Qed.

Lemma logo_bytes_recognised fs self logo_bytes :
  __init__ fs = Ok self → vedantu_logo fs = Some logo_bytes →
  is_logo self logo_bytes = Ok true.
Proof.
  intros Hinit Hlogo. pose proof (init_cases fs) as Hc. rewrite Hlogo in Hc.
  unfold is_logo, _get_image_hash.
  destruct (rgb_pixels logo_bytes) as [img|]; [|congruence].
  rewrite Hinit in Hc. injection Hc as ->. cbn [vedantu_logo_hash mbind result_bind].
  by rewrite bool_decide_eq_true_2.
Qed.

Lemma logo_bytes_rejected fs self logo_bytes doc n acc i xref :
  __init__ fs = Ok self → vedantu_logo fs = Some logo_bytes →
  image_bytes (extract_image doc xref) = logo_bytes →
  harvest_image self fs doc n acc (i, xref) = Ok acc.
Proof.
  intros Hinit Hlogo Hb. unfold harvest_image. rewrite Hb.
  rewrite (logo_bytes_recognised fs self logo_bytes) by done.
  cbn [mbind result_bind]. by destruct (bool_decide _).
Qed.

Lemma logo_bytes_page fs self logo_bytes doc pg xref :
  __init__ fs = Ok self → vedantu_logo fs = Some logo_bytes →
  strip (get_text pg) = [] → get_images pg = [xref] →
  image_bytes (extract_image doc xref) = logo_bytes →
  logo_only self doc pg.
Proof.
  intros Hinit Hlogo Ht Hi Hb.
  pose proof (logo_bytes_recognised fs self logo_bytes Hinit Hlogo) as Hr.
  unfold is_logo in Hr. destruct (vedantu_logo_hash self) as [logo|] eqn:Hh; [|done].
  split; [done|]. split; [by rewrite Hi|]. exists logo. split; [done|].
  exists xref. split; [by rewrite Hi|]. rewrite Hb.
  destruct (_get_image_hash logo_bytes) as [h|]; [|done].
  cbn [mbind result_bind] in Hr. injection Hr as Hr.
  by apply bool_decide_eq_true_1 in Hr as ->.
Qed.

Lemma harvest_skips_logo_only self fs doc all_images :
  harvest self fs doc = Ok all_images →
  Forall (λ h, ∀ n pg, pages doc !! n = Some pg → page h = n + 1 →
               ¬ logo_only self doc pg) all_images.
Proof.
  unfold harvest. intros Hh.
  apply (for_each_Forall _
           (λ (p : nat * Page) h, page h = p.1 + 1 ∧ ¬ logo_only self doc p.2))
    in Hh as (k & -> & Hk).
  - cbn [app]. eapply Forall_impl; [exact Hk|].
    intros h ([n' pg'] & [_ Hl]%enumerate_lookup & Hp & Hno) n pg Hpg Hn.
    cbn [fst snd] in *. rewrite Nat.sub_0_r in Hl.
    assert (n' = n) as -> by lia. congruence.
  - intros s [n pg] s' _ Hp. exact (harvest_page_pages self fs doc s n pg s' Hp).
Qed.
End Errors.

(** ** The cleaned text *)

Section CleanForm.
Context {unicode : UnicodeData}.

Lemma clean_words text :
  ∃ ws, Forall word ws
        ∧ _clean_question_text text = join (py " ") ws
        ∧ length (_clean_question_text text) ≤ length text.
Proof.
  unfold _clean_question_text. cbv zeta.
  set (s := re_sub_empty page_tag (re_sub_empty ans_artifact text)).
  exists (split s). split; [apply split_words|]. split.
  - apply strip_join_words, split_words.
  - pose proof (normalise_length s) as H1.
    pose proof (re_sub_go_length page_tag 0 (re_sub_empty ans_artifact text)) as H2.
    pose proof (re_sub_go_length ans_artifact 0 text) as H3.
    fold (re_sub_empty page_tag (re_sub_empty ans_artifact text)) in H2.
    fold (re_sub_empty ans_artifact text) in H3. fold s in H2.
    clearbody s. len_lia.
Qed.
End CleanForm.

(** ** The loop over the option images *)

Lemma option_images_loop_enough turns all_images c :
  4 ≤ turns →
  option_images_loop turns all_images c [] =
    (image <$> take 4 (drop c all_images), c + Nat.min 4 (length all_images - c)).
Proof.
  intros Hturns. rewrite option_images_loop_spec. cbv zeta. cbn [length app].
  replace (Nat.min turns (4 - 0)) with 4 by lia.
  by rewrite length_take, length_drop.
Qed.

Lemma option_images_loop_exit turns all_images c :
  4 ≤ turns →
  let '(option_images, image_index) := option_images_loop turns all_images c [] in
  ¬ (image_index < length all_images ∧ length option_images < 4).
Proof.
  intros Hturns. rewrite option_images_loop_enough by done.
  rewrite length_fmap, length_take, length_drop. lia.
Qed.

Local Open Scope N_scope.


(** ** Texts in which a pattern cannot begin *)










Section TrailingTag.
Context {unicode : UnicodeData}.
Hypothesis digits_decimal : ∀ c, in_range 48 57 c = true → isdecimal c = true.
Hypothesis digit_values :
  ∀ c, in_range 48 57 c = true → decimal_value c = N.to_nat (c - 48).
Hypothesis dash_not_decimal : isdecimal (ch "-") = false.



End TrailingTag.

(** ** The tests at the head of the loop over the questions *)

Section HeadTests.
Context {unicode : UnicodeData}.
Hypothesis upper_keeps_digit :
  ∀ c s, isdecimal c = true → head (upper (c :: s)) = Some c.
Hypothesis C_not_decimal : isdecimal (ch "C") = false.

Lemma class_test_dead all_text q :
  q ∈ raw_questions all_text → startswith (upper q) (py "CLASS") = false.
Proof.
  intros (c & s & -> & Hc & _)%raw_questions_start.
  specialize (upper_keeps_digit c s Hc).
  destruct (upper (c :: s)) as [|c' u]; [done|]. cbn in upper_keeps_digit.
  injection upper_keeps_digit as ->.
  unfold startswith. apply bool_decide_eq_false_2.
  change (py "CLASS") with (ch "C" :: py "LASS"). cbn [literal].
  destruct (N.eqb_spec (ch "C") c) as [<-|]; [congruence|]. by intros [? [=]].
Qed.

Lemma raw_question_dropped_iff all_images image_index all_text q :
  q ∈ raw_questions all_text →
  process_question all_images image_index q = None
  ↔ contains (py "SECTION") (upper q) = true.
Proof.
  intros Hq. pose proof (process_question_survives all_images image_index q) as Hp.
  pose proof (class_test_dead all_text q Hq) as Hclass.
  apply raw_questions_start in Hq as (_ & _ & _ & _ & Hnum).
  unfold survives in Hp. rewrite Hclass, (bool_decide_eq_true_2 _ Hnum) in Hp.
  cbn [orb] in Hp. rewrite andb_true_r in Hp.
  destruct (process_question all_images image_index q) as [it|].
  - destruct Hp as [Hp _]. apply negb_true_iff in Hp. rewrite Hp. done.
  - apply negb_false_iff in Hp. done.
Qed.
End HeadTests.

(** ** Options: the whole text *)

Lemma extract_options_markup pre opts :
  Forall (λ c, not_bracket c = true) pre →
  Forall plain_option opts →
  _extract_options (pre ++ join (py " ") (option_markup <$> opts)) = opts.
Proof.
  intros Hpre Hopts. unfold _extract_options, re_split. cbv zeta.
  rewrite re_split_go_no_start.
  - by apply omap_split_markup.
  - intros i Hi. apply option_part_needs_bracket.
    destruct (drop i pre) as [|c r] eqn:Hd.
    { apply (f_equal length) in Hd. rewrite length_drop in Hd. cbn in Hd. lia. }
    cbn [app head from_option].
    assert (c ∈ pre) as Hc.
    { eapply (sublist_subseteq (drop i pre)); [apply sublist_drop|].
      rewrite Hd. constructor. }
    rewrite Forall_forall in Hpre. apply Hpre in Hc. unfold not_bracket in Hc.
    by apply negb_true_iff, orb_false_iff in Hc as [-> _].
Qed.

(** ** The caption loop *)


Lemma literal_app l s : literal l (l ++ s) = Some s.
Proof. induction l as [|a l IH]; [by destruct s|]. cbn. by rewrite N.eqb_refl. Qed.

Lemma endswith_app s l : endswith (s ++ l) l = true.
Proof.
  unfold endswith, startswith. rewrite rev_app_distr, literal_app.
  by apply bool_decide_eq_true_2.
Qed.

Lemma image_path_filename n i e :
  image_path n i e = IMAGE_DIR ++ py "/" ++ image_filename n i e.
Proof. reflexivity. Qed.

Section CaptionProps.
Context {unicode : UnicodeData}.
Variable generate_caption : str → result str.

Lemma caption_wanted_harvested n i e :
  e ∈ VALID_IMAGE_EXTS →
  lower (image_filename n i e) = image_filename n i e →
  caption_wanted (image_filename n i e) = negb (bool_decide (e = py "jpe")).
Proof.
  intros He Hlower. unfold caption_wanted. rewrite Hlower.
  assert (∀ e, image_filename n i e
               = (py "page" ++ str_of_nat (n + 1) ++ py "_image" ++ str_of_nat i)
                 ++ py "." ++ e) as Hname.
  { intros e'. unfold image_filename. by rewrite <- !app_assoc. }
  rewrite Hname. set (stem := py "page" ++ _ ++ _ ++ _).
  unfold VALID_IMAGE_EXTS in He.
  repeat (apply elem_of_cons in He as [-> | He]); [..|by apply elem_of_nil in He].
  - cbn [existsb]. change (py "." ++ py "png") with (py ".png").
    by rewrite endswith_app.
  - cbn [existsb]. change (py "." ++ py "jpg") with (py ".jpg").
    rewrite (endswith_app stem (py ".jpg")). by rewrite orb_true_r.
  - cbn [existsb]. change (py "." ++ py "jpeg") with (py ".jpeg").
    rewrite (endswith_app stem (py ".jpeg")). by rewrite !orb_true_r.
  - cbn [existsb]. unfold endswith, startswith. rewrite rev_app_distr.
    reflexivity.
Qed.

Lemma caption_file_cases m0 x :
  caption_file generate_caption m0 x =
    if caption_wanted x then
      match generate_caption (image_dir ++ py "/" ++ x) with
      | Ok caption => Ok (<[x := caption]> m0)
      | Raise => Raise
      end
    else Ok m0.
Proof. unfold caption_file. destruct (caption_wanted x); [|done]. by destruct (generate_caption _). Qed.

Lemma caption_loop listing m0 m :
  for_each (caption_file generate_caption) listing m0 = Ok m →
  ∀ filename,
    m !! filename =
      if bool_decide (filename ∈ listing) && caption_wanted filename
      then match generate_caption (image_dir ++ py "/" ++ filename) with
           | Ok caption => Some caption
           | Raise => None
           end
      else m0 !! filename.
Proof.
  revert m0. induction listing as [|x listing IH]; intros m0; cbn [for_each].
  - intros [= <-] filename. done.
  - rewrite caption_file_cases.
    destruct (caption_wanted x) eqn:Hx.
    + destruct (generate_caption (image_dir ++ py "/" ++ x))
        as [caption|] eqn:Hgen; cbn [mbind result_bind]; [|done].
      intros Hm filename.
      rewrite (IH _ Hm filename).
      destruct (decide (filename = x)) as [->|Hne].
      * rewrite (bool_decide_eq_true_2 (x ∈ x :: listing)) by constructor.
        rewrite Hx, Hgen. cbn [andb]. rewrite lookup_insert_eq.
        by destruct (bool_decide _).
      * rewrite lookup_insert_ne by done.
        assert (bool_decide (filename ∈ x :: listing) = bool_decide (filename ∈ listing))
          as ->; [|done].
        apply bool_decide_ext. rewrite elem_of_cons. split; [by intros [?|?]|by right].
    + cbn [mbind result_bind]. intros Hm filename.
      rewrite (IH _ Hm filename).
      destruct (decide (filename = x)) as [->|Hne].
      * rewrite Hx, !andb_false_r. done.
      * assert (bool_decide (filename ∈ x :: listing) = bool_decide (filename ∈ listing))
          as ->; [|done].
        apply bool_decide_ext. rewrite elem_of_cons. split; [by intros [?|?]|by right].
Qed.
End CaptionProps.

(** ** Where the text is cut *)





Section Cuts.
Context {unicode : UnicodeData}.






Hypothesis line_feed_not_decimal : isdecimal 10 = false.





End Cuts.

(** ** The image heuristic *)

Lemma re_search_prefix {G} (p : pattern G) pre s :
  is_Some (re_search p s) → is_Some (re_search p (pre ++ s)).
Proof.
  intros Hs. induction pre as [|c pre IH]; [done|]. cbn [app re_search].
  by destruct (p (c :: pre ++ s)) as [[g r]|].
Qed.

Section Heuristic.
Context {unicode : UnicodeData}.

Lemma is_question_with_image_prefix pre text :
  _is_question_with_image text = true → _is_question_with_image (pre ++ text) = true.
Proof.
  unfold _is_question_with_image. rewrite !orb_true_iff, !bool_decide_eq_true.
  intros [[[H|H]|H]|H]; eauto using re_search_prefix.
Qed.
End Heuristic.

Local Close Scope N_scope.


Section MoreAssembly.
Context {unicode : UnicodeData}.

Lemma assemble_questions all_images c spans :
  (λ it, question_obj it !! "question") <$> assemble all_images c spans
  = (λ q, Some (VStr (_clean_question_text q))) <$> filter (λ q, survives q = true) spans.
Proof.
  revert c. induction spans as [|q spans IH]; intros c; [done|].
  cbn [assemble]. pose proof (process_question_survives all_images c q) as Hq.
  destruct (process_question all_images c q) as [it|] eqn:Hp.
  - destruct Hq as (Hs & Hc & _). rewrite filter_cons_True by done.
    cbn [fmap list_fmap]. rewrite (question_obj_question _ _ _ _ Hp), Hc, IH. done.
  - rewrite filter_cons_False by (rewrite Hq; done). apply IH.
Qed.

Lemma assemble_exhausted all_images c spans :
  length all_images ≤ c →
  Forall (λ it, question_images it = [] ∧ option_images it = []
                ∧ image_index it = c) (assemble all_images c spans).
Proof.
  intros Hc. induction spans as [|q spans IH]; cbn [assemble]; [constructor|].
  destruct (process_question all_images c q) as [it|] eqn:Hp; [|done].
  destruct (process_question_exhausted _ _ _ _ Hc Hp) as (Hq & Ho & Hi).
  constructor; [done|]. by rewrite Hi.
Qed.

Lemma process_question_no_marker all_images c q_text it :
  process_question all_images c q_text = Some it →
  re_search page_tag q_text = None →
  question_images it =
    if _is_question_with_image (clean_text it) then []
    else option_list (image <$> all_images !! c).
Proof.
  intros Hp Hnone.
  pose proof (process_question_survives all_images c q_text) as Hs.
  rewrite Hp in Hs. destruct Hs as (_ & _ & Hpage). rewrite Hnone in Hpage.
  apply process_question_inv in Hp as (c1 & Hq & _).
  rewrite Hpage, primary_images_no_page in Hq.
  destruct (bool_decide_reflect (c < length all_images)) as [Hc|Hc]; cbn [andb] in Hq.
  - destruct (_is_question_with_image (clean_text it)); cbn [negb] in Hq.
    + by injection Hq as <- _.
    + destruct (all_images !! c); by injection Hq as <- _.
  - injection Hq as <- _. rewrite lookup_ge_None_2 by lia.
    by destruct (_is_question_with_image _).
Qed.
End MoreAssembly.

Lemma ascii_upper_keeps_digit c s :
  isdecimal (UnicodeData := ascii_unicode) c = true →
  head (upper (UnicodeData := ascii_unicode) (c :: s)) = Some c.
Proof.
  cbn. unfold ascii_isdecimal, ascii_upper, in_range.
  intros [H1 H2]%andb_prop. apply N.leb_le in H1, H2.
  destruct (97 <=? c)%N eqn:H3; [apply N.leb_le in H3; lia|done].
Qed.

(** ** The run as a whole *)

Section RunLemmas.
Context {unicode : UnicodeData} {imaging : Imaging}.
Variable int_max_str_digits : nat.

Lemma run_question_cases all_images questions_data cursor q_text :
  Run.question int_max_str_digits all_images (questions_data, cursor) q_text =
    match process_question all_images cursor q_text with
    | None => Ok (questions_data, cursor)
    | Some it =>
        match re_search page_tag q_text with
        | Some ds =>
            if bool_decide (0 < int_max_str_digits)
               && bool_decide (int_max_str_digits < length ds)
            then Raise
            else Ok (questions_data ++ [question_obj it], image_index it)
        | None => Ok (questions_data ++ [question_obj it], image_index it)
        end
    end.
Proof.
  unfold Run.question, process_question.
  destruct (startswith _ _ || contains _ _); [done|].
  destruct (re_match question_num q_text); [|done].
  destruct (re_search page_tag q_text) as [ds|]; cbn [fmap option_fmap option_map].
  - unfold Run.int. destruct (_ && _); cbn [mbind result_bind].
    + by destruct (primary_images _ _ _ _) as [? ?], (option_images_loop _ _ _ _) as [? ?].
    + by destruct (primary_images _ _ _ _) as [? ?], (option_images_loop _ _ _ _) as [? ?].
  - cbn [mbind result_bind].
    by destruct (primary_images _ _ _ _) as [? ?], (option_images_loop _ _ _ _) as [? ?].
Qed.

Lemma run_questions_loop all_images spans questions_data cursor :
  match for_each (Run.question int_max_str_digits all_images) spans
                 (questions_data, cursor) with
  | Ok state =>
      state.1 = questions_data ++ (question_obj <$> assemble all_images cursor spans)
  | Raise =>
      ∃ q_text ds, q_text ∈ spans
        ∧ re_search page_tag q_text = Some ds
        ∧ 0 < int_max_str_digits < length ds
  end.
Proof.
  revert questions_data cursor.
  induction spans as [|q spans IH]; intros acc c; cbn [for_each assemble].
  - cbn. by rewrite app_nil_r.
  - rewrite run_question_cases.
    destruct (process_question all_images c q) as [it|]; cbn [mbind result_bind].
    + assert (match for_each (Run.question int_max_str_digits all_images) spans
                      (acc ++ [question_obj it], image_index it) with
              | Ok state =>
                  state.1 = acc ++ (question_obj <$> it :: assemble all_images (image_index it) spans)
              | Raise =>
                  ∃ q_text ds, q_text ∈ q :: spans
                    ∧ re_search page_tag q_text = Some ds
                    ∧ 0 < int_max_str_digits < length ds
              end) as Hrest.
      { specialize (IH (acc ++ [question_obj it]) (image_index it)).
        destruct (for_each _ spans _).
        - rewrite IH. cbn [fmap list_fmap]. by rewrite <- app_assoc.
        - destruct IH as (q' & ds & ? & ? & ?). exists q', ds.
          split; [by constructor|done]. }
      destruct (re_search page_tag q) as [ds|] eqn:Hds; [|exact Hrest].
      destruct (bool_decide_reflect (0 < int_max_str_digits)) as [H0|H0];
        cbn [andb mbind result_bind]; [|exact Hrest].
      destruct (bool_decide_reflect (int_max_str_digits < length ds)) as [H1|H1];
        cbn [mbind result_bind]; [|exact Hrest].
      exists q, ds. split; [by constructor|done].
    + specialize (IH acc c). destruct (for_each _ spans _); [done|].
      destruct IH as (q' & ds & ? & ? & ?). exists q', ds.
      split; [by constructor|done].
Qed.

Lemma run_extract_content_cases self fs fitz_open :
  match Run.extract_content int_max_str_digits self fs fitz_open with
  | Ok data =>
      ∃ doc all_images,
        fitz_open = Ok doc
        ∧ harvest self fs doc = Ok all_images
        ∧ data = questions_data all_images (raw_questions (text_blob self doc))
  | Raise =>
      fitz_open = Raise
      ∨ ∃ doc, fitz_open = Ok doc
          ∧ ((is_Some (vedantu_logo_hash self)
              ∧ ∃ pg xref, pg ∈ pages doc ∧ xref ∈ get_images pg
                  ∧ rgb_pixels (image_bytes (extract_image doc xref)) = None)
             ∨ ∃ all_text q_text ds,
                 collect_text self doc = Ok all_text
                 ∧ q_text ∈ raw_questions all_text
                 ∧ re_search page_tag q_text = Some ds
                 ∧ 0 < int_max_str_digits < length ds)
  end.
Proof.
  unfold Run.extract_content.
  destruct fitz_open as [doc|]; cbn [mbind result_bind]; [|by left].
  pose proof (extract_content_cases self fs doc) as Hmodel.
  unfold extract_content in Hmodel.
  destruct (harvest self fs doc) as [all_images|] eqn:Hh; cbn [mbind result_bind] in *.
  - pose proof (collect_text_blob self doc) as Hblob.
    destruct (collect_text self doc) as [all_text|] eqn:Hc; cbn [mbind result_bind] in *.
    + pose proof (run_questions_loop all_images (raw_questions all_text) [] 0) as Hloop.
      destruct (for_each _ _ _) as [state|]; cbn [mbind result_bind].
      * exists doc, all_images. split_and!; [done..|]. by rewrite Hloop, <- Hblob.
      * right. exists doc. split; [done|]. right.
        destruct Hloop as (q & ds & ? & ? & ?). by exists all_text, q, ds.
    + right. exists doc. split; [done|]. by left.
  - right. exists doc. split; [done|]. by left.
Qed.
End RunLemmas.

(** * Further properties of the code *)

Section Further.
Context {unicode : UnicodeData} {imaging : Imaging}.

(** X1.  Every entry of the harvest comes from an embedded image of the
    document: its page number is one more than the index of a page, its
    path is the path made from that page index, a position between 1 and
    the number of embedded images of that page, and an accepted extension.
    The entries are sorted by page number. *)
Theorem harvested_entries_well_formed (self : PDFExtractor) (fs : Files) (doc : Document)
    (all_images : list HarvestedImage) :
  harvest self fs doc = Ok all_images →
  Forall (λ h, ∃ n pg i e,
                 pages doc !! n = Some pg
                 ∧ page h = n + 1
                 ∧ 1 ≤ i ≤ length (get_images pg)
                 ∧ e ∈ VALID_IMAGE_EXTS
                 ∧ image h = image_path n i e) all_images
  ∧ StronglySorted le (page <$> all_images).
Proof.
  intros Hsub%harvest_sublist. rewrite harvest_all_entries in Hsub.
  destruct (document_entries fs doc 0 (pages doc)) as (Hall & _ & Hsorted & _).
  split.
  - rewrite Forall_forall in *. intros h Hh.
    destruct (Hall h) as (n & pg & i & e & _ & Hpg & Hrest);
      [by eapply sublist_subseteq|].
    rewrite Nat.sub_0_r in Hpg. by exists n, pg, i, e.
  - eapply StronglySorted_sublist; [|exact Hsorted]. by apply fmap_sublist.
Qed.

(** X2.  No two entries of the harvest have the same path: no file is
    written twice during one harvest. *)
Theorem harvested_paths_distinct (self : PDFExtractor) (fs : Files) (doc : Document)
    (all_images : list HarvestedImage) :
  harvest self fs doc = Ok all_images → NoDup (image <$> all_images).
Proof.
  intros Hsub%harvest_sublist. rewrite harvest_all_entries in Hsub.
  destruct (document_entries fs doc 0 (pages doc)) as (_ & Hnd & _).
  eapply sublist_NoDup; [exact Hnd|]. by apply fmap_sublist.
Qed.

(** X3.  The logo filter only removes: the harvest is a subsequence of
    the harvest without the filter, and it has at most as many entries as
    the document has embedded images. *)
Theorem harvest_within_unfiltered (self : PDFExtractor) (fs : Files) (doc : Document)
    (all_images : list HarvestedImage) :
  harvest self fs doc = Ok all_images →
  all_images `sublist_of` harvest_all fs doc
  ∧ length all_images ≤ embedded_count doc.
Proof.
  intros Hsub%harvest_sublist. split; [done|].
  apply sublist_length in Hsub. rewrite harvest_all_entries in Hsub.
  destruct (document_entries fs doc 0 (pages doc)) as (_ & _ & _ & Hlen).
  unfold embedded_count. lia.
Qed.

(** X4.  A page that is blank except for the logo -- the pages the text
    loop leaves out -- contributes no entry to the harvest. *)
Theorem logo_only_page_gives_no_image (self : PDFExtractor) (fs : Files) (doc : Document)
    (all_images : list HarvestedImage) :
  harvest self fs doc = Ok all_images →
  Forall (λ h, ∀ n pg, pages doc !! n = Some pg → page h = n + 1 →
               ¬ logo_only self doc pg) all_images.
Proof. apply harvest_skips_logo_only. Qed.

(** X5.  An embedded image whose bytes are those of the logo file is
    recognised by the extractor that [__init__] built from that file: the
    harvest never saves it, whatever its extension, and a page with no
    text that holds it alone is skipped. *)
Theorem logo_file_image_rejected (fs : Files) (self : PDFExtractor) (logo_bytes : bytes)
    (doc : Document) (xref : N) :
  __init__ fs = Ok self →
  vedantu_logo fs = Some logo_bytes →
  image_bytes (extract_image doc xref) = logo_bytes →
  (∀ page_number all_images img_index,
     harvest_image self fs doc page_number all_images (img_index, xref) = Ok all_images)
  ∧ (∀ pg, strip (get_text pg) = [] → get_images pg = [xref] →
       _should_skip_page self (strip (get_text pg)) (get_images pg) doc = Ok true).
Proof.
  intros Hinit Hlogo Hb. split.
  - intros. by eapply logo_bytes_rejected.
  - intros pg Ht Hi. apply should_skip_page_iff. by eapply logo_bytes_page.
Qed.

(** X6.  A run of [extract_content], which opens the PDF itself and reads
    page numbers with the interpreter's [int], raises for three causes
    only: [fitz.open] raises; or a logo fingerprint exists and Pillow
    cannot decode some embedded image of the document; or a span that was
    kept holds a page tag with more digits than the interpreter's [int]
    accepts.  Otherwise it returns the records assembled from the harvest
    and from the questions of the text blob. *)
Theorem run_raises_for_three_causes_only (int_max_str_digits : nat) (self : PDFExtractor)
    (fs : Files) (fitz_open : result Document) :
  match Run.extract_content int_max_str_digits self fs fitz_open with
  | Ok data =>
      ∃ doc all_images,
        fitz_open = Ok doc
        ∧ harvest self fs doc = Ok all_images
        ∧ data = questions_data all_images (raw_questions (text_blob self doc))
  | Raise =>
      fitz_open = Raise
      ∨ ∃ doc, fitz_open = Ok doc
          ∧ ((is_Some (vedantu_logo_hash self)
              ∧ ∃ pg xref, pg ∈ pages doc ∧ xref ∈ get_images pg
                  ∧ rgb_pixels (image_bytes (extract_image doc xref)) = None)
             ∨ ∃ all_text q_text ds,
                 collect_text self doc = Ok all_text
                 ∧ q_text ∈ raw_questions all_text
                 ∧ re_search page_tag q_text = Some ds
                 ∧ 0 < int_max_str_digits < length ds)
  end.
Proof. apply run_extract_content_cases. Qed.

(** X7.  The split into questions loses no text: the pieces, put together
    again, are the text.  Every span that is kept is the trimmed form of a
    piece, begins with a decimal digit and matches the question-number
    pattern, so the second test at the head of the loop never rejects a
    span. *)
Theorem segments_cover_text_and_start_with_number (all_text : str) :
  concat (split_questions true [] all_text) = all_text
  ∧ ∀ q, q ∈ raw_questions all_text →
      (∃ piece, piece ∈ split_questions true [] all_text ∧ q = strip piece)
      ∧ (∃ c s, q = c :: s ∧ isdecimal c = true)
      ∧ is_Some (re_match question_num q).
Proof.
  split; [apply split_questions_concat|]. intros q Hq.
  pose proof (raw_questions_start all_text q Hq) as (c & s & Hc & Hd & Hnum).
  split_and!; [|by exists c, s|done].
  unfold raw_questions in Hq. apply list_elem_of_omap in Hq as (piece & Hp & Hq).
  exists piece. split; [done|]. destruct (bool_decide _); by simplify_eq.
Qed.

(** X8.  The first test at the head of the loop is dead: a span that the
    split kept begins with a digit, so its upper-case form never begins
    with CLASS.  A kept span is therefore dropped exactly when its
    upper-case form contains SECTION.  The tables enter through two facts:
    [upper] leaves a leading decimal digit in place, and C is no decimal
    digit. *)
Theorem class_test_never_fires (all_images : list HarvestedImage) (image_index : nat)
    (all_text q : str) :
  (∀ c s, isdecimal c = true → head (upper (c :: s)) = Some c) →
  isdecimal (ch "C") = false →
  q ∈ raw_questions all_text →
  startswith (upper q) (py "CLASS") = false
  ∧ (process_question all_images image_index q = None
     ↔ contains (py "SECTION") (upper q) = true).
Proof.
  intros Hupper HC Hq. split.
  - by eapply class_test_dead.
  - by eapply raw_question_dropped_iff.
Qed.

(** X9.  The question texts of the emitted records are the cleaned texts
    of the spans that pass the two tests at the head of the loop, in the
    order of the spans: which records are emitted, and with which text,
    does not depend on the images. *)
Theorem emitted_questions_are_cleaned_survivors (all_images : list HarvestedImage)
    (spans : list str) :
  (λ record : gmap string value, record !! "question") <$> questions_data all_images spans
  = (λ q, Some (VStr (_clean_question_text q))) <$> filter (λ q, survives q = true) spans.
Proof.
  unfold questions_data. rewrite <- list_fmap_compose.
  apply assemble_questions.
Qed.

(** X10.  The shape of an emitted record: it has no key besides
    ["question"], ["images"], ["option_images"] and ["options"]; its
    question is a text; its image is [None] or a path; its option images,
    when present, are between one and four paths; its options, when
    present, are a non-empty list. *)
Theorem record_schema (all_images : list HarvestedImage) (spans : list str) :
  Forall (λ record : gmap string value,
            dom record ⊆ ({["question"; "images"; "option_images"; "options"]} : gset string)
            ∧ (∃ s, record !! "question" = Some (VStr s))
            ∧ (record !! "images" = Some VNone ∨ ∃ s, record !! "images" = Some (VStr s))
            ∧ (∀ v, record !! "option_images" = Some v →
                 ∃ l, v = VImages l ∧ 1 ≤ length l ≤ 4)
            ∧ (∀ v, record !! "options" = Some v → ∃ l, v = VOptions l ∧ l ≠ []))
         (questions_data all_images spans).
Proof.
  unfold questions_data. apply Forall_fmap, assemble_Forall.
  intros c q_text it Hq. cbn.
  destruct (question_obj_optional _ _ _ _ Hq) as (Hoi & Hopt & Hdom).
  destruct (process_question_attached _ _ _ _ Hq) as (_ & _ & Hlen).
  split_and!.
  - done.
  - eexists. by eapply question_obj_question.
  - rewrite (question_obj_images _ _ _ _ Hq). unfold primary_value.
    destruct (question_images it); [by left|right; by eexists].
  - intros v. rewrite Hoi. destruct (option_images it) as [|x l] eqn:Hl; [done|].
    intros [= <-]. eexists. split; [done|]. cbn [length] in *. lia.
  - intros v. rewrite Hopt. destruct (option_images it); [|done].
    destruct (_extract_options q_text) as [|o l]; [done|].
    intros [= <-]. by eexists.
Qed.

(** X11.  Every image path in an emitted record, the primary image and
    each option image, is the path of a harvested image. *)
Theorem attached_images_were_harvested (all_images : list HarvestedImage)
    (spans : list str) :
  Forall (λ record : gmap string value,
            (∀ p, record !! "images" = Some (VStr p) → p ∈ image <$> all_images)
            ∧ (∀ l, record !! "option_images" = Some (VImages l) →
                 l ⊆ image <$> all_images))
         (questions_data all_images spans).
Proof.
  unfold questions_data. apply Forall_fmap, assemble_Forall.
  intros c q_text it Hq. cbn.
  destruct (question_obj_optional _ _ _ _ Hq) as (Hoi & _ & _).
  destruct (process_question_attached _ _ _ _ Hq) as (Hqi & Hopt & _).
  split.
  - intros p. rewrite (question_obj_images _ _ _ _ Hq). unfold primary_value.
    destruct (question_images it) as [|first rest]; [done|].
    intros [= <-]. apply Hqi. by constructor.
  - intros l. rewrite Hoi. destruct (option_images it) as [|x l'] eqn:Hl; [done|].
    by intros [= <-].
Qed.

(** X12.  Once the cursor has reached the end of the harvested list, and
    so from the start when nothing was harvested, no question gets an
    image: the primary image is [None], there are no option images, and
    the cursor stays where it is. *)
Theorem spent_cursor_attaches_nothing (all_images : list HarvestedImage)
    (image_index0 : nat) (spans : list str) :
  length all_images ≤ image_index0 →
  Forall (λ it, image_index it = image_index0
                ∧ question_obj it !! "images" = Some VNone
                ∧ question_obj it !! "option_images" = None)
         (assemble all_images image_index0 spans).
Proof.
  intros Hc. pose proof (assemble_exhausted all_images image_index0 spans Hc) as Hex.
  pose proof (assemble_Forall
    (λ it, question_obj it !! "images" = Some (primary_value (question_images it))
           ∧ question_obj it !! "option_images"
             = match option_images it with [] => None | l => Some (VImages l) end)
    all_images) as Hobj.
  specialize (Hobj ltac:(intros c q it Hq; split;
                         [by eapply question_obj_images
                         |by destruct (question_obj_optional _ _ _ _ Hq) as (? & _)])
                   image_index0 spans).
  rewrite Forall_forall in *. intros it Hit.
  destruct (Hex it Hit) as (Hq & Ho & Hi). destruct (Hobj it Hit) as (H1 & H2).
  rewrite Hq in H1. rewrite Ho in H2. done.
Qed.

(** X13.  A question whose span holds no page marker gets its primary
    image from the cursor alone, and the image heuristic can only withhold
    it: when the cleaned text refers to a figure the question gets no
    primary image, and otherwise it gets the image under the cursor, if
    there is one. *)
Theorem unmarked_figure_question_gets_no_image (all_images : list HarvestedImage)
    (image_index0 : nat) (q_text : str) (it : Iteration) :
  process_question all_images image_index0 q_text = Some it →
  re_search page_tag q_text = None →
  question_images it =
    (if _is_question_with_image (clean_text it) then []
     else option_list (image <$> all_images !! image_index0))
  ∧ (_is_question_with_image (clean_text it) = true →
     question_obj it !! "images" = Some VNone).
Proof.
  intros Hp Hnone. pose proof (process_question_no_marker _ _ _ _ Hp Hnone) as Hq.
  split; [done|]. intros Hfig. rewrite Hfig in Hq.
  by rewrite (question_obj_images _ _ _ _ Hp), Hq.
Qed.

(** X14.  A cleaned text is a sequence of words -- non-empty and free of
    whitespace -- joined by single spaces, and it is no longer than the
    text it was cleaned from. *)
Theorem cleaned_text_is_single_spaced (text : str) :
  ∃ ws, Forall word ws
        ∧ _clean_question_text text = join (py " ") ws
        ∧ length (_clean_question_text text) ≤ length text.
Proof. apply clean_words. Qed.

End Further.

(** X16.  Options written as a bracketed label, a space and a text, and
    separated by single spaces, are read back as they are, after any
    question text that holds no bracket: when each label is one of A to D
    and each text has no bracket and no line feed and neither begins nor
    ends with whitespace.  In particular a text without brackets has no
    options. *)
Theorem options_read_back (pre : str) (opts : list OptionRecord) :
  Forall (λ c, not_bracket c = true) pre →
  Forall plain_option opts →
  _extract_options (pre ++ join (py " ") (option_markup <$> opts)) = opts.
Proof. apply extract_options_markup. Qed.

(** X17.  The loop over the option images takes the next images under the
    cursor, four of them or as many as are left, and moves the cursor past
    them; four turns are all it takes, and when it stops its condition no
    longer holds. *)
Theorem option_loop_takes_up_to_four (turns : nat) (all_images : list HarvestedImage)
    (image_index0 : nat) :
  4 ≤ turns →
  option_images_loop turns all_images image_index0 []
  = (image <$> take 4 (drop image_index0 all_images),
     image_index0 + Nat.min 4 (length all_images - image_index0))
  ∧ (let '(option_images, image_index) :=
       option_images_loop turns all_images image_index0 [] in
     ¬ (image_index < length all_images ∧ length option_images < 4)).
Proof.
  intros Hturns. split; [by apply option_images_loop_enough|].
  by apply option_images_loop_exit.
Qed.

Section FurtherText.
Context {unicode : UnicodeData}.


(** X21.  The image heuristic searches the text: a cue that is found in a
    text is found as well when more text stands before it. *)
Theorem figure_cue_found_after_any_prefix (pre text : str) :
  _is_question_with_image text = true →
  _is_question_with_image (pre ++ text) = true.
Proof. apply is_question_with_image_prefix. Qed.
End FurtherText.

Section FurtherCaptions.
Context {unicode : UnicodeData}.

(** X18.  When the caption loop returns, the dict it built holds exactly
    the files of the directory whose lower-case name ends in .png, .jpg or
    .jpeg, each with the caption the model gave for its path under
    [image_dir]. *)
Theorem captions_hold_the_wanted_files (generate_caption : str → result str)
    (listing : list str) (m : gmap (list N) (list N)) :
  captions generate_caption listing = Ok m →
  ∀ filename caption,
    m !! filename = Some caption
    ↔ filename ∈ listing ∧ caption_wanted filename = true
      ∧ generate_caption (image_dir ++ py "/" ++ filename) = Ok caption.
Proof.
  intros Hm filename caption. unfold captions in Hm.
  rewrite (caption_loop _ _ _ _ Hm filename), lookup_empty.
  destruct (bool_decide_reflect (filename ∈ listing)) as [Hin|Hin]; cbn [andb].
  - destruct (caption_wanted filename).
    + destruct (generate_caption _) as [c|]; split.
      * by intros [= ->].
      * by intros (_ & _ & [= ->]).
      * done.
      * by intros (_ & _ & ?).
    + split; [done|]. by intros (_ & ? & _).
  - split; [done|]. by intros (? & _).
Qed.

(** X19.  The extraction stage saves images of four extensions, the
    caption stage reads three: a harvested image, whose file name is all
    lower case, is captioned exactly when its extension is not jpe.  The
    path of a harvested image is its file name under [image_dir], the
    directory the caption stage lists. *)
Theorem jpe_images_are_saved_but_not_captioned (page_number img_index : nat) (e : str) :
  e ∈ VALID_IMAGE_EXTS →
  lower (image_filename page_number img_index e) = image_filename page_number img_index e →
  image_path page_number img_index e
    = image_dir ++ py "/" ++ image_filename page_number img_index e
  ∧ (caption_wanted (image_filename page_number img_index e) = true ↔ e ≠ py "jpe").
Proof.
  intros He Hlower. split; [reflexivity|].
  rewrite caption_wanted_harvested by done.
  destruct (bool_decide_reflect (e = py "jpe")); cbn [negb]; split; done.
Qed.
End FurtherCaptions.

(** ** Examples for the further properties *)

(** The harvest of the two-page document: two entries, pages 1 and 2. *)
Lemma harvested_entries_witness :
  ∃ all_images,
    harvest (unicode := ascii_unicode) (imaging := plain_imaging)
            {| vedantu_logo_hash := None |} no_logo_files two_page_doc = Ok all_images
    ∧ StronglySorted le (page <$> all_images).
Proof.
  eexists.
  match goal with |- ?P ∧ _ => assert P as Hh by (vm_compute; reflexivity) end.
  split; [exact Hh|].
  exact (proj2 (harvested_entries_well_formed (unicode := ascii_unicode)
                  (imaging := plain_imaging) _ _ _ _ Hh)).
Defined.

(** The six images of one page get six different paths. *)
Lemma harvested_paths_witness :
  ∃ all_images,
    harvest (unicode := ascii_unicode) (imaging := plain_imaging)
            {| vedantu_logo_hash := None |} no_logo_files six_image_doc = Ok all_images
    ∧ length all_images = 6
    ∧ NoDup (image <$> all_images).
Proof.
  eexists.
  match goal with |- ?P ∧ _ => assert P as Hh by (vm_compute; reflexivity) end.
  split; [exact Hh|]. split; [reflexivity|].
  exact (harvested_paths_distinct (unicode := ascii_unicode)
           (imaging := plain_imaging) _ _ _ _ Hh).
Defined.

(** With the logo file present, the document with the logo page and the
    figure has three embedded images and one harvested entry. *)
Lemma harvest_within_witness :
  ∃ self all_images,
    __init__ (imaging := plain_imaging) logo_files = Ok self
    ∧ harvest (unicode := ascii_unicode) (imaging := plain_imaging)
              self logo_files logo_and_figure_doc = Ok all_images
    ∧ length all_images = 1
    ∧ embedded_count logo_and_figure_doc = 3
    ∧ all_images `sublist_of`
        harvest_all (unicode := ascii_unicode) logo_files logo_and_figure_doc.
Proof.
  eexists _, _. split; [vm_compute; reflexivity|].
  match goal with |- ?P ∧ _ => assert P as Hh by (vm_compute; reflexivity) end.
  split; [exact Hh|]. split; [reflexivity|]. split; [reflexivity|].
  exact (proj1 (harvest_within_unfiltered (unicode := ascii_unicode)
                  (imaging := plain_imaging) _ _ _ _ Hh)).
Defined.

(** The entry harvested from that document is on page 2; page 1, which
    holds only the logo, has none. *)
Lemma logo_only_page_witness :
  ∃ self all_images,
    __init__ (imaging := plain_imaging) logo_files = Ok self
    ∧ harvest (unicode := ascii_unicode) (imaging := plain_imaging)
              self logo_files logo_and_figure_doc = Ok all_images
    ∧ page <$> all_images = [2]
    ∧ Forall (λ h, ∀ n pg, pages logo_and_figure_doc !! n = Some pg → page h = n + 1 →
                   ¬ logo_only (imaging := plain_imaging) self logo_and_figure_doc pg)
             all_images.
Proof.
  eexists _, _. split; [vm_compute; reflexivity|].
  match goal with |- ?P ∧ _ => assert P as Hh by (vm_compute; reflexivity) end.
  split; [exact Hh|]. split; [reflexivity|].
  exact (logo_only_page_gives_no_image (unicode := ascii_unicode)
           (imaging := plain_imaging) _ _ _ _ Hh).
Defined.

(** The first image of page 2 of that document has the bytes of the logo
    file: the harvest passes over it. *)
Lemma logo_file_image_witness :
  ∃ self,
    __init__ (imaging := plain_imaging) logo_files = Ok self
    ∧ vedantu_logo logo_files = Some logo_bytes
    ∧ image_bytes (extract_image logo_and_figure_doc 7%N) = logo_bytes
    ∧ harvest_image (unicode := ascii_unicode) (imaging := plain_imaging)
        self logo_files logo_and_figure_doc 1 [] (1, 7%N) = Ok [].
Proof.
  eexists.
  match goal with |- ?P ∧ _ => assert P as Hinit by (vm_compute; reflexivity) end.
  split; [exact Hinit|]. split; [reflexivity|]. split; [reflexivity|].
  exact (proj1 (logo_file_image_rejected (unicode := ascii_unicode)
                  (imaging := plain_imaging) logo_files _ logo_bytes
                  logo_and_figure_doc 7%N Hinit eq_refl eq_refl) 1 [] 1).
Defined.

(** The text of one page with one question: one span is kept, and it
    matches the question-number pattern. *)
Lemma segments_witness :
  let all_text := page_marker 0 ++ py "1. Q1" in
  py "1. Q1" ∈ raw_questions (unicode := ascii_unicode) all_text
  ∧ is_Some (re_match (question_num (unicode := ascii_unicode)) (py "1. Q1")).
Proof.
  cbv zeta.
  assert (py "1. Q1" ∈ raw_questions (unicode := ascii_unicode)
                          (page_marker 0 ++ py "1. Q1")) as Hq.
  { assert (raw_questions (unicode := ascii_unicode) (page_marker 0 ++ py "1. Q1")
            = [py "1. Q1"]) as -> by (vm_compute; reflexivity).
    constructor. }
  split; [exact Hq|].
  exact (proj2 (proj2 (proj2 (segments_cover_text_and_start_with_number
                                (unicode := ascii_unicode) _) _ Hq))).
Defined.

(** A span that reads CLASS after its number is kept by the first test. *)
Lemma class_test_witness :
  let all_text := page_marker 0 ++ py "1. CLASS TEST" in
  py "1. CLASS TEST" ∈ raw_questions (unicode := ascii_unicode) all_text
  ∧ startswith (upper (UnicodeData := ascii_unicode) (py "1. CLASS TEST")) (py "CLASS")
    = false.
Proof.
  cbv zeta.
  assert (py "1. CLASS TEST" ∈ raw_questions (unicode := ascii_unicode)
                                  (page_marker 0 ++ py "1. CLASS TEST")) as Hq.
  { assert (raw_questions (unicode := ascii_unicode)
              (page_marker 0 ++ py "1. CLASS TEST") = [py "1. CLASS TEST"]) as ->
      by (vm_compute; reflexivity).
    constructor. }
  split; [exact Hq|].
  exact (proj1 (class_test_never_fires (unicode := ascii_unicode) [] 0 _ _
                  ascii_upper_keeps_digit eq_refl Hq)).
Defined.

(** With nothing harvested, a question gets no image. *)
Lemma spent_cursor_witness :
  length (@nil HarvestedImage) ≤ 0
  ∧ Forall (λ it, image_index it = 0
                  ∧ question_obj it !! "images" = Some VNone
                  ∧ question_obj it !! "option_images" = None)
           (assemble (unicode := ascii_unicode) [] 0 [py "1. Q1"]).
Proof.
  split; [apply le_n|].
  apply (spent_cursor_attaches_nothing (unicode := ascii_unicode) [] 0 [py "1. Q1"]).
  apply le_n.
Defined.

(** A question that refers to a figure, in a span with no page marker,
    gets no primary image although one is under the cursor. *)
Lemma unmarked_figure_witness :
  let a := {| page := 1; image := py "output/images/page1_image1.png" |} in
  let q := py "1. Count the stars, see figure" in
  ∃ it,
    process_question (unicode := ascii_unicode) [a] 0 q = Some it
    ∧ re_search (page_tag (unicode := ascii_unicode)) q = None
    ∧ question_obj it !! "images" = Some VNone.
Proof.
  cbv zeta. eexists.
  match goal with |- ?P ∧ ?Q ∧ _ =>
    assert P as Hp by (vm_compute; reflexivity);
    assert Q as Hnone by (vm_compute; reflexivity)
  end.
  split; [exact Hp|]. split; [exact Hnone|].
  apply (proj2 (unmarked_figure_question_gets_no_image (unicode := ascii_unicode)
                  _ _ _ _ Hp Hnone)).
  vm_compute. reflexivity.
Defined.


(** The options of the scenario are read back from its span. *)
Lemma options_read_back_witness :
  let opts := [ {| label := py "A"; text := py "3" |};
                {| label := py "B"; text := py "4" |};
                {| label := py "C"; text := py "5" |};
                {| label := py "D"; text := py "6" |} ] in
  Forall plain_option opts ∧ _extract_options scenario_span = opts.
Proof.
  cbv zeta.
  match goal with |- ?P ∧ _ => assert P as Hopts end.
  { repeat (constructor; [split_and!; [by repeat constructor..|done|done]|]).
    constructor. }
  split; [exact Hopts|].
  assert (Forall (λ c, not_bracket c = true) (py "1. What is 2+2? ")) as Hpre
    by (by repeat constructor).
  exact (options_read_back (py "1. What is 2+2? ") _ Hpre Hopts).
Defined.

(** With two images left, the loop takes both and stops. *)
Lemma option_loop_witness :
  let a := {| page := 1; image := py "a.png" |} in
  let b := {| page := 1; image := py "b.png" |} in
  option_images_loop 4 [a; b] 0 [] = ([py "a.png"; py "b.png"], 2).
Proof.
  cbv zeta.
  exact (proj1 (option_loop_takes_up_to_four 4
                  [ {| page := 1; image := py "a.png" |};
                    {| page := 1; image := py "b.png" |} ] 0 (le_n 4))).
Defined.

(** A directory with an image and a text file: the image is captioned. *)
Lemma captions_witness :
  let listing := [py "page1_image1.png"; py "notes.txt"] in
  ∃ m,
    captions (unicode := ascii_unicode) fixed_caption listing = Ok m
    ∧ m !! py "page1_image1.png" = Some (py "a cat").
Proof.
  cbv zeta. eexists.
  match goal with |- ?P ∧ _ => assert P as Hm by (vm_compute; reflexivity) end.
  split; [exact Hm|].
  apply (captions_hold_the_wanted_files (unicode := ascii_unicode) _ _ _ Hm).
  split; [constructor|]. split; reflexivity.
Defined.

(** The first image of page 1, saved as a .jpe file, is not captioned. *)
Lemma jpe_witness :
  py "jpe" ∈ VALID_IMAGE_EXTS
  ∧ lower (UnicodeData := ascii_unicode) (image_filename 0 1 (py "jpe"))
    = image_filename 0 1 (py "jpe")
  ∧ caption_wanted (unicode := ascii_unicode) (image_filename 0 1 (py "jpe")) ≠ true.
Proof.
  assert (py "jpe" ∈ VALID_IMAGE_EXTS) as He by (by repeat constructor).
  assert (lower (UnicodeData := ascii_unicode) (image_filename 0 1 (py "jpe"))
          = image_filename 0 1 (py "jpe")) as Hlower by (vm_compute; reflexivity).
  split; [exact He|]. split; [exact Hlower|].
  intros Hwanted.
  exact (proj1 (proj2 (jpe_images_are_saved_but_not_captioned (unicode := ascii_unicode)
                         0 1 (py "jpe") He Hlower)) Hwanted eq_refl).
Defined.


(** The cue is found behind the number of the question. *)
Lemma figure_cue_witness :
  _is_question_with_image (unicode := ascii_unicode) (py "see figure") = true
  ∧ _is_question_with_image (unicode := ascii_unicode) (py "1. " ++ py "see figure") = true.
Proof.
  split; [reflexivity|].
  exact (figure_cue_found_after_any_prefix (unicode := ascii_unicode)
           (py "1. ") (py "see figure") eq_refl).
Defined.

(** The run raises when the PDF cannot be opened, and its loop raises on a
    question with a page tag of 4301 digits under the usual limit of 4300;
    on the two-page document the run returns what [extract_content]
    returns for the opened document. *)
Lemma run_raise_examples :
  let self := {| vedantu_logo_hash := None |} in
  Run.extract_content (unicode := ascii_unicode) (imaging := plain_imaging)
                      4300 self no_logo_files Raise = Raise
  ∧ re_match (question_num (unicode := ascii_unicode)) long_tag_text = Some (py "1")
  ∧ Run.question (unicode := ascii_unicode) 4300 [] ([], 0) long_tag_text = Raise
  ∧ Run.extract_content (unicode := ascii_unicode) (imaging := plain_imaging)
                        4300 self no_logo_files (Ok two_page_doc)
    = extract_content (unicode := ascii_unicode) (imaging := plain_imaging)
                      self no_logo_files two_page_doc.
Proof. cbv zeta. split_and!; [reflexivity|vm_compute; reflexivity..]. Qed.
